(** * Sahabat Nusantara backend: the in-memory, time-windowed state engine

    A shallow embedding of the two keyed stores of the backend and of the
    functions that act on them:

    - [backend/middleware/rateLimit.js]: [rateLimitStore], [cleanupOldEntries],
      [updateRequestCounter], [rateLimitMiddleware], [getRateLimitStats];
    - [backend/routes/chat.js]: [conversationMemory], [generateSessionId],
      [getConversationHistory], [addToConversationHistory],
      [buildConversationContext], [cleanupOldConversations],
      [extractResponseText], [validateSelectedModel],
      [handleChatRequest], [handleClearConversation];
    - [backend/middleware/security.js]: [validateAndSanitizeMessage],
      [validateMessageMiddleware];
    - [public/js/rateLimit.js]: the class [RateLimiter].

    Conventions.  A JS [Map] keyed by strings is a [gmap string _]; no
    property below depends on the iteration order of a [Map].  [Date.now()]
    is an integer number of milliseconds and is passed in as a [Z], one
    argument per call site.  The Express response object is modelled by
    what the handler writes to it, and [next()] by a boolean.  Each
    synchronous function runs to completion, so it is a function from the
    store before the call to the store after it. *)

From Stdlib Require Import ZArith NArith Ascii String List Lia.
From stdpp Require Import gmap strings list fin_maps.

Local Open Scope Z_scope.

(** ** Rate limiting middleware *)

Module RateLimit.

(** [RATE_LIMIT_CONFIG] *)
Definition windowMs : Z := 60000.
Definition maxRequests : Z := 10.
Definition blockDuration : Z := 300000.

(** The object stored per client IP. *)
Record IpData := mkIpData {
  count : Z;
  resetTime : Z;
  blocked : bool;
  blockedUntil : Z
}.

(** What a call writes to [res]: both are [res.status(429).json(...)]; the
    first message carries the remaining seconds, the second is a fixed
    text. *)
Inductive Response :=
| TooManyRetryIn (remainingTime : Z)
| TooManyBlocked.

(** [Math.ceil(x / 1000)] for an integer [x]. *)
Definition ceil_div_1000 (x : Z) : Z := - ((- x) / 1000).

(** The loop body of [cleanupOldEntries]. *)
Definition cleanupStep (now : Z) (ip : string) (data : IpData)
    (store : gmap string IpData) : gmap string IpData :=
  if now - resetTime data >? windowMs then delete ip store else store.

(** [for (const [ip, data] of rateLimitStore.entries()) ...]: the entries of
    the store are visited once each, and the stale ones are deleted from the
    store. *)
Definition cleanupOldEntries (now : Z) (store : gmap string IpData)
    : gmap string IpData :=
  map_fold (cleanupStep now) store store.

(** [updateRequestCounter]: the new store and what was written to [res]. *)
Definition updateRequestCounter (clientIP : string) (now : Z)
    (store : gmap string IpData) : gmap string IpData * option Response :=
  match store !! clientIP with
  | None =>
      (<[clientIP := mkIpData 1 now false 0]> store, None)
  | Some data =>
      let data1 := mkIpData (count data + 1) (resetTime data)
                            (blocked data) (blockedUntil data) in
      if count data1 >? maxRequests then
        (<[clientIP := mkIpData (count data1) (resetTime data1)
                                true (now + blockDuration)]> store,
         Some TooManyBlocked)
      else (<[clientIP := data1]> store, None)
  end.

(** The result of one run of the middleware. *)
Record Outcome := mkOutcome {
  store_after : gmap string IpData;
  response : option Response;
  next_called : bool
}.

(** [rateLimitMiddleware]; [clientIP] is the value of
    [req.ip || req.connection.remoteAddress || req.socket.remoteAddress] and
    [now] the reading of [Date.now()]. *)
Definition rateLimitMiddleware (clientIP : string) (now : Z)
    (store : gmap string IpData) : Outcome :=
  let store1 := cleanupOldEntries now store in
  let ipData := store1 !! clientIP in
  match ipData with
  | Some d =>
      if blocked d && (now <? blockedUntil d) then
        mkOutcome store1
          (Some (TooManyRetryIn (ceil_div_1000 (blockedUntil d - now))))
          false
      else
        let store2 :=
          if blocked d && (now >=? blockedUntil d)
          then delete clientIP store1 else store1 in
        let '(store3, r) := updateRequestCounter clientIP now store2 in
        mkOutcome store3 r true
  | None =>
      let '(store3, r) := updateRequestCounter clientIP now store1 in
      mkOutcome store3 r true
  end.

(** Successive requests of one client, at the given times. *)
Fixpoint requests (clientIP : string) (times : list Z)
    (store : gmap string IpData) : list Outcome * gmap string IpData :=
  match times with
  | [] => ([], store)
  | now :: rest =>
      let o := rateLimitMiddleware clientIP now store in
      let '(os, final) := requests clientIP rest (store_after o) in
      (o :: os, final)
  end.

(** *** Notions used in the statements *)

(** A request is allowed when nothing is written to [res] and [next()] is
    called; it is denied when it is not passed on to the next handler. *)
Definition allowed (o : Outcome) : Prop :=
  next_called o = true ∧ response o = None.

Definition denied (o : Outcome) : Prop := next_called o = false.

(** The number of seconds to wait that the answer carries, if any. *)
Definition reported_wait (o : Outcome) : option Z :=
  match response o with
  | Some (TooManyRetryIn s) => Some s
  | _ => None
  end.

(** An entry whose window started more than [windowMs] before [now]. *)
Definition stale (now : Z) (d : IpData) : bool := now - resetTime d >? windowMs.

(** The burst used in the examples: one client, one request per
    millisecond from time 0 on. *)
Definition burst_client : string := "203.0.113.7".
Definition burst_times : list Z := [0; 1; 2; 3; 4; 5; 6; 7; 8; 9].
Definition store_after_burst : gmap string IpData :=
  snd (requests burst_client burst_times ∅).
Definition eleventh : Outcome := rateLimitMiddleware burst_client 10 store_after_burst.

(** *** The statistics and runs of requests of several clients *)

(** [getRateLimitStats]: [totalIPs] and [entries]; [config] is the constant
    [RATE_LIMIT_CONFIG]. *)
Record Stats := mkStats {
  totalIPs : nat;
  entries : list (string * IpData)
}.

Definition getRateLimitStats (store : gmap string IpData) : Stats :=
  mkStats (size store) (map_to_list store).

(** Requests of any clients, in the order in which the server handles
    them; each is a client key and the reading of the clock. *)
Fixpoint serve (reqs : list (string * Z)) (store : gmap string IpData)
    : gmap string IpData :=
  match reqs with
  | [] => store
  | (clientIP, now) :: rest =>
      serve rest (store_after (rateLimitMiddleware clientIP now store))
  end.

(** The shape of the entries that the middleware writes: a counting entry
    has a count within the limit and no end of block; a blocked entry has
    the count that set the block, and the block was set within its
    window. *)
Definition entry_ok (d : IpData) : Prop :=
  if blocked d
  then count d = maxRequests + 1 ∧
       blockedUntil d - blockDuration - resetTime d ≤ windowMs
  else 1 ≤ count d ≤ maxRequests ∧ blockedUntil d = 0.

(** The outcome that the position of a request in a burst calls for. *)
Definition burst_outcome (i : nat) (o : Outcome) : Prop :=
  if decide (i < 10)%nat then allowed o
  else if decide (i = 10)%nat
       then response o = Some TooManyBlocked
       else denied o ∧ ∃ s, response o = Some (TooManyRetryIn s).

(** *** The requests of one client among those of all *)

Definition is_allowed (o : Outcome) : bool :=
  match response o with
  | None => next_called o
  | Some _ => false
  end.

(** The times at which a request of [ip] is allowed, when the server
    handles the requests [reqs] of any clients in this order. *)
Fixpoint allowed_times_of (ip : string) (reqs : list (string * Z))
    (store : gmap string IpData) : list Z :=
  match reqs with
  | [] => []
  | (clientIP, now) :: rest =>
      let o := rateLimitMiddleware clientIP now store in
      if bool_decide (clientIP = ip) && is_allowed o
      then now :: allowed_times_of ip rest (store_after o)
      else allowed_times_of ip rest (store_after o)
  end.

(** How the allowed times of [ip] so far ([hist], newest first) lie with
    respect to its entry: those of the window of the entry ([cur]), those
    of the window before ([prev]) and the older ones, which are more than a
    window before the entry. *)
Definition window_history (ip : string) (from : Z) (hist : list Z)
    (store : gmap string IpData) : Prop :=
  Forall (λ a, a ≤ from) hist ∧
  ∃ cur prev older,
    hist = cur ++ prev ++ older ∧
    Z.of_nat (length cur) ≤ maxRequests ∧
    Z.of_nat (length prev) ≤ maxRequests ∧
    match store !! ip with
    | None =>
        prev = [] ∧ Forall (λ x, x < from) cur ∧
        Forall (λ x, x + windowMs < from) older
    | Some d =>
        resetTime d ≤ from ∧
        Z.of_nat (length cur) = (if blocked d then maxRequests else count d) ∧
        Forall (λ x, x - resetTime d ≤ windowMs) cur ∧
        Forall (λ x, x < resetTime d) prev ∧
        Forall (λ x, x + windowMs < resetTime d) older ∧
        (blocked d = true → resetTime d + windowMs < blockedUntil d)
    end.

End RateLimit.

(** ** Conversation memory and chat routes *)

Module Chat.

Definition MAX_CONVERSATION_LENGTH : Z := 10.
Definition MEMORY_CLEANUP_INTERVAL : Z := 30 * 60 * 1000.

(** An element of [conversation.messages]. *)
Record Message := mkMessage {
  role : string;
  content : string;
  timestamp : Z
}.

(** The object stored per session id. *)
Record Conversation := mkConversation {
  messages : list Message;
  lastActivity : Z
}.

(** The line feed written [\n] in the source. *)
Definition LF : string := String "010"%char EmptyString.

(** *** Session id *)

(** The fields of the Express request that [generateSessionId] reads;
    [None] is [undefined].  A string stands for its UTF-8 bytes, which is
    what [Buffer.from] turns it into. *)
Record Request := mkRequest {
  req_ip : option string;
  req_connection_remoteAddress : option string;
  req_user_agent : option string
}.

(** [a || b] on values that are strings or [undefined]: the empty string
    and [undefined] are falsy. *)
Definition js_or (a b : option string) : option string :=
  match a with
  | Some s => if String.eqb s "" then b else a
  | None => b
  end.

(** [a || 'literal'] *)
Definition js_or_default (a : option string) (d : string) : string :=
  match a with
  | Some s => if String.eqb s "" then d else s
  | None => d
  end.

Definition base64_alphabet : string :=
  "ABCDEFGHIJKLMNOPQRSTUVWXYZabcdefghijklmnopqrstuvwxyz0123456789+/".

(** The character of a 6-bit value. *)
Definition base64_char (v : N) : ascii :=
  match String.get (N.to_nat v) base64_alphabet with
  | Some c => c
  | None => "="%char
  end.

(** [buf.toString('base64')] of Node: the encoding of RFC 4648 with
    padding, three bytes to four characters. *)
Fixpoint base64 (buf : string) : string :=
  match buf with
  | EmptyString => EmptyString
  | String a EmptyString =>
      let x := N_of_ascii a in
      String (base64_char (N.shiftr x 2))
        (String (base64_char (N.shiftl (N.land x 3) 4)) "==")
  | String a (String b EmptyString) =>
      let x := N_of_ascii a in
      let y := N_of_ascii b in
      String (base64_char (N.shiftr x 2))
        (String (base64_char (N.lor (N.shiftl (N.land x 3) 4) (N.shiftr y 4)))
           (String (base64_char (N.shiftl (N.land y 15) 2)) "="))
  | String a (String b (String c rest)) =>
      let x := N_of_ascii a in
      let y := N_of_ascii b in
      let z := N_of_ascii c in
      String (base64_char (N.shiftr x 2))
        (String (base64_char (N.lor (N.shiftl (N.land x 3) 4) (N.shiftr y 4)))
           (String (base64_char (N.lor (N.shiftl (N.land y 15) 2) (N.shiftr z 6)))
              (String (base64_char (N.land z 63)) (base64 rest))))
  end.

(** The template literal [`${ip}-${userAgent}`]. *)
Definition identityString (req : Request) : string :=
  let ip := js_or_default (js_or (req_ip req) (req_connection_remoteAddress req))
                          "unknown" in
  let userAgent := js_or_default (req_user_agent req) "unknown" in
  ip +:+ "-" +:+ userAgent.

(** [generateSessionId] *)
Definition generateSessionId (req : Request) : string :=
  substring 0 16 (base64 (identityString req)).

(** *** The store *)

(** [getConversationHistory]: the store after the call and the object the
    store holds for [sessionId], which is what the call returns. *)
Definition getConversationHistory (now : Z) (sessionId : string)
    (mem : gmap string Conversation) : gmap string Conversation * Conversation :=
  match mem !! sessionId with
  | Some conversation => (mem, conversation)
  | None =>
      let fresh := mkConversation [] now in
      (<[sessionId := fresh]> mem, fresh)
  end.

(** [arr.slice(start)] of JS: a negative [start] counts from the end. *)
Definition slice_from {A} (start : Z) (arr : list A) : list A :=
  let len := Z.of_nat (length arr) in
  let k := if start <? 0 then Z.max (len + start) 0 else Z.min start len in
  drop (Z.to_nat k) arr.

(** The three readings of [Date.now()] in one [addToConversationHistory]:
    in [getConversationHistory], for the timestamp of the message, and for
    [lastActivity]. *)
Record Ticks := mkTicks { t_create : Z; t_push : Z; t_activity : Z }.

(** [addToConversationHistory].  The conversation object is the one held by
    the store, so the changes made to it are changes of the store. *)
Definition addToConversationHistory (tk : Ticks) (sessionId role content : string)
    (mem : gmap string Conversation) : gmap string Conversation :=
  let '(mem1, conversation) := getConversationHistory (t_create tk) sessionId mem in
  let pushed := messages conversation ++ [mkMessage role content (t_push tk)] in
  let limited :=
    if Z.of_nat (length pushed) >? MAX_CONVERSATION_LENGTH * 2
    then slice_from (- MAX_CONVERSATION_LENGTH * 2) pushed
    else pushed in
  <[sessionId := mkConversation limited (t_activity tk)]> mem1.

(** The body of the [forEach] in [buildConversationContext]. *)
Definition appendLine (context : string) (msg : Message) : string :=
  if String.eqb (role msg) "user"
  then context +:+ ("Pengguna: " +:+ content msg +:+ LF)
  else context +:+ ("Sahabat Nusantara: " +:+ content msg +:+ LF).

(** [buildConversationContext] *)
Definition buildConversationContext (msgs : list Message) : string :=
  if (length msgs =? 0)%nat then ""
  else
    let context := LF +:+ LF +:+ "Konteks percakapan sebelumnya:" +:+ LF in
    let recentMessages := slice_from (-8) msgs in
    let context := fold_left appendLine recentMessages context in
    context +:+ (LF +:+ "Pertanyaan pengguna saat ini: ").

(** The loop body of [cleanupOldConversations]. *)
Definition cleanupConversationStep (cutoff : Z) (sessionId : string)
    (conversation : Conversation) (mem : gmap string Conversation)
    : gmap string Conversation :=
  if lastActivity conversation <? cutoff then delete sessionId mem else mem.

(** [cleanupOldConversations], with [now] the reading of [Date.now()]. *)
Definition cleanupOldConversations (now : Z) (mem : gmap string Conversation)
    : gmap string Conversation :=
  let cutoff := now - MEMORY_CLEANUP_INTERVAL in
  map_fold (cleanupConversationStep cutoff) mem mem.

(** *** The handlers *)

(** [handleChatRequest] up to the call of the model (lines 158 to 167):
    the store after it and the conversation context put in the prompt. *)
Definition chatContext (now : Z) (req : Request)
    (mem : gmap string Conversation) : gmap string Conversation * string :=
  let sessionId := generateSessionId req in
  let '(mem1, conversation) := getConversationHistory now sessionId mem in
  (mem1, buildConversationContext (messages conversation)).

(** [handleChatRequest] after the model has answered [botMessage] (lines
    178 to 184); [cleanup] is the outcome of [Math.random() < 0.1] and
    [now] the reading of the clock in [cleanupOldConversations]. *)
Definition chatRecord (tkUser tkBot : Ticks) (cleanup : bool) (now : Z)
    (req : Request) (sanitizedMessage botMessage : string)
    (mem : gmap string Conversation) : gmap string Conversation :=
  let sessionId := generateSessionId req in
  let mem1 := addToConversationHistory tkUser sessionId "user" sanitizedMessage mem in
  let mem2 := addToConversationHistory tkBot sessionId "assistant" botMessage mem1 in
  if cleanup then cleanupOldConversations now mem2 else mem2.

(** What [handleClearConversation] answers: [res.json({success: true, ...})]
    or, from the [catch], [res.status(500)].  Nothing in the [try] block
    throws here, so the handler below never gives the second answer. *)
Inductive ClearResponse :=
| ClearSuccess (sessionId : string)
| ClearFailure.

(** [handleClearConversation] *)
Definition handleClearConversation (req : Request)
    (mem : gmap string Conversation) : gmap string Conversation * ClearResponse :=
  let sessionId := generateSessionId req in
  let mem1 :=
    match mem !! sessionId with
    | Some _ => delete sessionId mem
    | None => mem
    end in
  (mem1, ClearSuccess sessionId).

(** One [addToConversationHistory] per element, in order, on one session. *)
Fixpoint recordAll (sessionId : string) (calls : list (Ticks * string * string))
    (mem : gmap string Conversation) : gmap string Conversation :=
  match calls with
  | [] => mem
  | (tk, r, c) :: rest =>
      recordAll sessionId rest (addToConversationHistory tk sessionId r c mem)
  end.

(** *** Notions used in the statements *)

(** The turns stored for a session; none when the session has no entry. *)
Definition stored (sessionId : string) (mem : gmap string Conversation)
    : list Message :=
  match mem !! sessionId with
  | Some conversation => messages conversation
  | None => []
  end.

(** The [n] most recent elements of a list that is kept oldest first. *)
Definition most_recent {A} (n : nat) (l : list A) : list A :=
  drop (length l - n) l.

(** The turn that a call of [addToConversationHistory] appends. *)
Definition turn_of (call : Ticks * string * string) : Message :=
  let '(tk, r, c) := call in mkMessage r c (t_push tk).

(** The transcript as the specification words it: for each of the most
    recent turns a line made of the role label and the text, then the
    prompt for the new question. *)
Definition roleLabel (msg : Message) : string :=
  if String.eqb (role msg) "user" then "Pengguna" else "Sahabat Nusantara".

Definition renderTurn (msg : Message) : string :=
  roleLabel msg +:+ ": " +:+ content msg +:+ LF.

Definition contextHeader : string :=
  LF +:+ LF +:+ "Konteks percakapan sebelumnya:" +:+ LF.

Definition promptMarker : string := LF +:+ "Pertanyaan pengguna saat ini: ".

Definition joinLines (lines : list string) : string :=
  foldr String.append "" lines.

Definition transcript (contextWindow : nat) (turns : list Message) : string :=
  match turns with
  | [] => ""
  | _ => contextHeader +:+ joinLines (renderTurn <$> most_recent contextWindow turns)
           +:+ promptMarker
  end.

(** The requests used in the examples. *)
Definition browser : Request :=
  mkRequest (Some "127.0.0.1") None (Some "Mozilla/5.0").

Definition office_pc : Request :=
  mkRequest (Some "192.168.100.25") None (Some "Mozilla/5.0 (Windows NT 10.0)").

Definition office_phone : Request :=
  mkRequest (Some "192.168.100.77") None (Some "curl/8.5.0").

Definition borobudur : list (Ticks * string * string) :=
  [(mkTicks 1 2 3, "user", "Apa itu Borobudur?");
   (mkTicks 4 5 6, "assistant", "Borobudur adalah candi Buddha...")].

(** *** The model answer and the model name *)

Definition GEMINI_MODEL : string := "gemini-2.5-flash".

#[local] Set Warnings "-register-all".

(** The values that a parsed JSON body or a model response is made of.  No
    function below looks inside a number, which is kept as an integer; the
    fields of an object are listed once each. *)
Inductive JsValue :=
| JUndefined
| JNull
| JBool (b : bool)
| JNumber (n : Z)
| JString (s : string)
| JArray (items : list JsValue)
| JObject (fields : list (string * JsValue)).

Definition nullish (v : JsValue) : bool :=
  match v with
  | JUndefined | JNull => true
  | _ => false
  end.

(** [a ?? b] *)
Definition js_coalesce (a b : JsValue) : JsValue :=
  if nullish a then b else a.

(** [v?.name] for one of the names [response], [candidates], [content],
    [parts], [text], none of which is a property of an array, a string, a
    number or a boolean. *)
Definition opt_prop (name : string) (v : JsValue) : JsValue :=
  match v with
  | JObject fields =>
      match List.find (λ kv, String.eqb (fst kv) name) fields with
      | Some kv => snd kv
      | None => JUndefined
      end
  | _ => JUndefined
  end.

(** [v?.[0]] *)
Definition opt_first (v : JsValue) : JsValue :=
  match v with
  | JArray (x :: _) => x
  | JString (String c _) => JString (String c EmptyString)
  | JObject _ => opt_prop "0" v
  | _ => JUndefined
  end.

Definition FALLBACK_TEXT : string :=
  "Maaf, terjadi kesalahan dalam memproses permintaan Anda.".

(** [extractResponseText] *)
Definition extractResponseText (resp : JsValue) : JsValue :=
  js_coalesce
    (opt_prop "text" (opt_first (opt_prop "parts" (opt_prop "content"
       (opt_first (opt_prop "candidates" (opt_prop "response" resp)))))))
    (js_coalesce
       (opt_prop "text" (opt_first (opt_prop "parts" (opt_prop "content"
          (opt_first (opt_prop "candidates" resp))))))
       (js_coalesce
          (opt_prop "text" (opt_prop "content"
             (opt_first (opt_prop "candidates" (opt_prop "response" resp)))))
          (JString FALLBACK_TEXT))).

Definition validModels : list string :=
  ["gemini-2.5-flash"; "gemini-1.5-pro"; "gemini-1.5-flash"].

(** [validateSelectedModel]; [includes] compares with [===], which only a
    string satisfies. *)
Definition validateSelectedModel (model : JsValue) : string :=
  match model with
  | JString s => if existsb (String.eqb s) validModels then s else GEMINI_MODEL
  | _ => GEMINI_MODEL
  end.

(** The response of the model in the shape that the SDK gives it, and in
    the shape with a [response] wrapper, with [text] as the text of the
    first part of the first candidate. *)
Definition candidate_with (text : JsValue) (parts : list JsValue) : JsValue :=
  JObject [("content", JObject [("parts", JArray (JObject [("text", text)] :: parts))])].

Definition sdk_response (text : JsValue) (parts candidates : list JsValue) : JsValue :=
  JObject [("candidates", JArray (candidate_with text parts :: candidates))].

Definition wrapped_response (text : JsValue) (parts candidates : list JsValue)
    : JsValue :=
  JObject [("response", sdk_response text parts candidates)].

(** The two turns that a successful [handleChatRequest] records. *)
Definition exchange (tkUser tkBot : Ticks) (sanitizedMessage botMessage : string)
    : list Message :=
  [mkMessage "user" sanitizedMessage (t_push tkUser);
   mkMessage "assistant" botMessage (t_push tkBot)].

(** *** Reading base64 back

    Node's decoder is not used by the routes; the one below serves to show
    that the encoding loses nothing. *)

(** The 6-bit value of a character of the alphabet. *)
Fixpoint index_in (c : ascii) (alphabet : string) (i : N) : option N :=
  match alphabet with
  | EmptyString => None
  | String x rest => if Ascii.eqb c x then Some i else index_in c rest (i + 1)%N
  end.

Definition base64_index (c : ascii) : option N := index_in c base64_alphabet 0.

(** The bytes that four characters stand for; [None] for a padding
    character. *)
Definition byte_of (v : N) : ascii := ascii_of_N (N.land v 255).

Definition quad_bytes (c1 c2 c3 c4 : ascii) : option string :=
  match base64_index c1, base64_index c2 with
  | Some v1, Some v2 =>
      let b1 := byte_of (N.lor (N.shiftl v1 2) (N.shiftr v2 4)) in
      match base64_index c3 with
      | None => Some (String b1 EmptyString)
      | Some v3 =>
          let b2 := byte_of (N.lor (N.shiftl v2 4) (N.shiftr v3 2)) in
          match base64_index c4 with
          | None => Some (String b1 (String b2 EmptyString))
          | Some v4 =>
              let b3 := byte_of (N.lor (N.shiftl v3 6) v4) in
              Some (String b1 (String b2 (String b3 EmptyString)))
          end
      end
  | _, _ => None
  end.

Fixpoint base64_decode (text : string) : option string :=
  match text with
  | EmptyString => Some EmptyString
  | String c1 (String c2 (String c3 (String c4 rest))) =>
      match quad_bytes c1 c2 c3 c4, base64_decode rest with
      | Some bytes, Some more => Some (bytes +:+ more)
      | _, _ => None
      end
  | _ => None
  end.

(** The four 6-bit values that [base64] makes of three bytes. *)
Definition sextet1 (x : N) : N := N.shiftr x 2.
Definition sextet2 (x y : N) : N := N.lor (N.shiftl (N.land x 3) 4) (N.shiftr y 4).
Definition sextet3 (y z : N) : N := N.lor (N.shiftl (N.land y 15) 2) (N.shiftr z 6).
Definition sextet4 (z : N) : N := N.land z 63.

(** Every 6-bit value and every byte, for checks that go through all of
    them. *)
Definition all_sextets : list N := N.of_nat <$> seq 0 64.

Definition all_bytes : list ascii := ascii_of_nat <$> seq 0 256.

(** What the proof that the encoding can be read back needs to know of one
    byte. *)
Definition byte_facts (a : ascii) : Prop :=
  let x := N_of_ascii a in
  (N.shiftr x 2 < 64 ∧ N.shiftl (N.land x 3) 4 < 64 ∧ N.shiftr x 4 < 64 ∧
   N.shiftl (N.land x 15) 2 < 64 ∧ N.shiftr x 6 < 64 ∧ N.land x 63 < 64)%N ∧
  (N.shiftr (N.shiftl (N.land x 3) 4) 4 = N.land x 3 ∧
   N.shiftr (N.shiftr x 4) 4 = 0 ∧
   N.shiftr (N.shiftl (N.land x 15) 2) 2 = N.land x 15 ∧
   N.shiftr (N.shiftr x 6) 2 = 0)%N ∧
  (N.land (N.shiftl (N.shiftl (N.land x 3) 4) 4) 255 = 0 ∧
   N.land (N.shiftl (N.shiftl (N.land x 15) 2) 6) 255 = 0)%N ∧
  byte_of (N.lor (N.shiftl (N.shiftr x 2) 2) (N.land x 3)) = a ∧
  byte_of (N.lor (N.shiftl (N.shiftr x 4) 4) (N.land x 15)) = a ∧
  byte_of (N.lor (N.shiftl (N.shiftr x 6) 6) (N.land x 63)) = a.

End Chat.

(** ** Validation of the message *)

(** [backend/middleware/security.js].  A JS string is the list of its
    UTF-16 code units, which is what [length], [trim] and the regular
    expressions of the source work on. *)
Module Security.

Local Open Scope N_scope.

(** The value of [req.body.message]: a string, or anything else, of which
    the validation only asks whether it is truthy ([undefined], [null],
    [false] and [0] are not; objects, arrays, [true] and the other numbers
    are). *)
Inductive BodyValue :=
| BodyString (units : list N)
| BodyOther (truthy : bool).

(** The code units of a literal of the source, all of them ASCII. *)
Definition lit (s : string) : list N := N_of_ascii <$> list_ascii_of_string s.

(** The white space and the line terminators of ECMAScript: what [trim]
    strips and what [\s] matches. *)
Definition is_space (c : N) : bool :=
  (c =? 9) || (c =? 10) || (c =? 11) || (c =? 12) || (c =? 13) ||
  (c =? 32) || (c =? 160) || (c =? 5760) ||
  ((8192 <=? c) && (c <=? 8202)) ||
  (c =? 8232) || (c =? 8233) || (c =? 8239) || (c =? 8287) ||
  (c =? 12288) || (c =? 65279).

(** What [\w] matches: [A-Za-z0-9_]. *)
Definition is_word (c : N) : bool :=
  ((65 <=? c) && (c <=? 90)) || ((97 <=? c) && (c <=? 122)) ||
  ((48 <=? c) && (c <=? 57)) || (c =? 95).

(** A unit [p] of a pattern with the flag [i], written in lower case,
    matches [c]: only the ASCII letters have a second case here. *)
Definition matches_ci (p c : N) : bool :=
  (c =? p) || ((97 <=? p) && (p <=? 122) && (c =? p - 32)).

Fixpoint prefix_ci (pattern s : list N) : bool :=
  match pattern, s with
  | [], _ => true
  | p :: pattern', c :: s' => matches_ci p c && prefix_ci pattern' s'
  | _ :: _, [] => false
  end.

Fixpoint drop_spaces (s : list N) : list N :=
  match s with
  | c :: rest => if is_space c then drop_spaces rest else s
  | [] => []
  end.

(** [s.trim()] *)
Definition trim (s : list N) : list N :=
  reverse (drop_spaces (reverse (drop_spaces s))).

(** [s.replace(/[...]/g, '')] for a class of single units. *)
Fixpoint remove_units (class : N → bool) (s : list N) : list N :=
  match s with
  | c :: rest => if class c then remove_units class rest else c :: remove_units class rest
  | [] => []
  end.

(** [s.replace(re, '')] with the flag [g]: the string is scanned from the
    left; where [re] matches, the units of the match are left out and the
    scan goes on behind it.  [match_at t] is the length of the match of [re]
    at the start of [t], and [skip] counts the units of a match still to
    leave out. *)
Fixpoint remove_matches (match_at : list N → option nat) (skip : nat)
    (s : list N) : list N :=
  match s with
  | [] => []
  | c :: rest =>
      match skip with
      | S k => remove_matches match_at k rest
      | O =>
          match match_at s with
          | Some (S k) => remove_matches match_at k rest
          | _ => c :: remove_matches match_at O rest
          end
      end
  end.

(** [/javascript:/gi] *)
Definition match_javascript (s : list N) : option nat :=
  if prefix_ci (lit "javascript:") s then Some 11%nat else None.

Fixpoint run_length (class : N → bool) (s : list N) : nat :=
  match s with
  | c :: rest => if class c then S (run_length class rest) else O
  | [] => O
  end.

(** [/on\w+\s*=/gi].  The classes [\w] and [\s] are disjoint and [=] is in
    neither, so a match takes the whole run of [\w] and the whole run of
    [\s]: giving back a unit leaves one that neither [\s] nor [=]
    matches. *)
Definition match_handler (s : list N) : option nat :=
  match s with
  | o :: n :: rest =>
      if matches_ci 111 o && matches_ci 110 n then
        match run_length is_word rest with
        | O => None
        | S w' =>
            let after_word := drop (S w') rest in
            let sp := run_length is_space after_word in
            match drop sp after_word with
            | e :: _ => if e =? 61 then Some (2 + S w' + sp + 1)%nat else None
            | [] => None
            end
        end
      else None
  | _ => None
  end.

Definition is_angle (c : N) : bool := (c =? 60) || (c =? 62).
Definition is_nul (c : N) : bool := c =? 0.

(** The chain of [trim] and [replace] of [validateAndSanitizeMessage]. *)
Definition sanitize (userMessage : list N) : list N :=
  remove_units is_nul
    (remove_matches match_handler 0
       (remove_matches match_javascript 0
          (remove_units is_angle (trim userMessage)))).

Definition ERR_EMPTY : string := "Pesan tidak boleh kosong.".
Definition ERR_FORMAT : string := "Format pesan tidak valid.".
Definition ERR_TOO_LONG : string := "Pesan terlalu panjang. Maksimal 1000 karakter.".
Definition ERR_AFTER_CLEANING : string := "Pesan tidak valid setelah pembersihan.".

(** [{isValid: false, error}] or [{isValid: true, sanitizedMessage}] *)
Inductive Validation :=
| Invalid (error : string)
| Valid (sanitizedMessage : list N).

(** [validateAndSanitizeMessage] *)
Definition validateAndSanitizeMessage (userMessage : BodyValue) : Validation :=
  match userMessage with
  | BodyOther false => Invalid ERR_EMPTY
  | BodyString [] => Invalid ERR_EMPTY
  | BodyOther true => Invalid ERR_FORMAT
  | BodyString units =>
      if (1000 <? length units)%nat then Invalid ERR_TOO_LONG
      else
        let sanitizedMessage := sanitize units in
        match sanitizedMessage with
        | [] => Invalid ERR_AFTER_CLEANING
        | _ => Valid sanitizedMessage
        end
  end.



(** *** Notions used in the statements *)

(** A text with a NUL before, between and behind its units. *)
Fixpoint nul_padded (text : list N) : list N :=
  match text with
  | [] => [0]
  | c :: rest => 0 :: c :: nul_padded rest
  end.

(** No unit that the sanitation removes one by one. *)
Definition plain (c : N) : Prop := c ≠ 60 ∧ c ≠ 62 ∧ c ≠ 0.



(** [shorter s' s]: [s'] is no longer than [s] and has every property that
    all units of [s] have. *)
Definition shorter (s' s : list N) : Prop :=
  (length s' ≤ length s)%nat ∧ ∀ P : N → Prop, Forall P s → Forall P s'.

End Security.

(** ** The rate limiter of the browser *)

(** [public/js/rateLimit.js]: the class [RateLimiter] that the page asks
    before it sends a message. *)
Module ClientRateLimit.

(** The [config] object given to the constructor; [None] is a property
    that is absent. *)
Record Config := mkConfig {
  config_maxRequests : option Z;
  config_timeWindow : option Z
}.

(** An instance: [this.config], [this.requests], [this.isBlocked] and
    [this.blockUntil]. *)
Record RateLimiter := mkRateLimiter {
  maxRequests : Z;
  timeWindow : Z;
  requests : list Z;
  isBlocked : bool;
  blockUntil : Z
}.

(** The constructor.  In
    [{maxRequests: config.maxRequests || 5, timeWindow: config.timeWindow || 60000, ...config}]
    the spread puts the properties of [config] over the two defaults, so a
    property that is present is taken as it is. *)
Definition new (config : Config) : RateLimiter :=
  mkRateLimiter (default 5 (config_maxRequests config))
                (default 60000 (config_timeWindow config))
                [] false 0.

(** What [checkRateLimit] answers: [{allowed: true}], or [{allowed: false}]
    with the message that tells the seconds left, or with the message of
    the minute to wait. *)
Inductive Check :=
| Allowed
| DeniedFor (remainingTime : Z)
| DeniedOneMinute.

(** [checkRateLimit], with [now] the reading of [Date.now()]. *)
Definition checkRateLimit (now : Z) (l : RateLimiter) : RateLimiter * Check :=
  let recent := filter (λ timestamp, now - timestamp < timeWindow l) (requests l) in
  if isBlocked l && (now <? blockUntil l) then
    (mkRateLimiter (maxRequests l) (timeWindow l) recent (isBlocked l) (blockUntil l),
     DeniedFor (RateLimit.ceil_div_1000 (blockUntil l - now)))
  else
    let '(blocked1, requests1) :=
      if isBlocked l && (now >=? blockUntil l)
      then (false, []) else (isBlocked l, recent) in
    if Z.of_nat (length requests1) >=? maxRequests l then
      (mkRateLimiter (maxRequests l) (timeWindow l) requests1 true
                     (now + timeWindow l),
       DeniedOneMinute)
    else
      (mkRateLimiter (maxRequests l) (timeWindow l) (requests1 ++ [now])
                     blocked1 (blockUntil l),
       Allowed).

(** [reset] *)
Definition reset (l : RateLimiter) : RateLimiter :=
  mkRateLimiter (maxRequests l) (timeWindow l) [] false 0.

(** [getStatus] *)
Record Status := mkStatus {
  requestCount : Z;
  status_maxRequests : Z;
  status_isBlocked : bool;
  remainingRequests : Z
}.

Definition getStatus (l : RateLimiter) : Status :=
  mkStatus (Z.of_nat (length (requests l))) (maxRequests l) (isBlocked l)
           (Z.max 0 (maxRequests l - Z.of_nat (length (requests l)))).

(** *** Runs of checks *)

(** The instance after checks at the given times. *)
Fixpoint after_checks (times : list Z) (l : RateLimiter) : RateLimiter :=
  match times with
  | [] => l
  | now :: rest => after_checks rest (fst (checkRateLimit now l))
  end.

(** The times, among those given, at which the check allows the message. *)
Fixpoint allowed_times (times : list Z) (l : RateLimiter) : list Z :=
  match times with
  | [] => []
  | now :: rest =>
      let '(l1, answer) := checkRateLimit now l in
      match answer with
      | Allowed => now :: allowed_times rest l1
      | _ => allowed_times rest l1
      end
  end.

(** Times that do not go back, none of them before [from]. *)
Fixpoint nondecreasing (from : Z) (times : list Z) : Prop :=
  match times with
  | [] => True
  | t :: rest => from ≤ t ∧ nondecreasing t rest
  end.

(** The allowed times so far, newest first: each was allowed with fewer
    than [limit] allowed times less than [window] before it. *)
Fixpoint each_within_limit (limit window : Z) (newest_first : list Z) : Prop :=
  match newest_first with
  | [] => True
  | a :: older =>
      Z.of_nat (length (filter (λ x, a - x < window) older)) < limit ∧
      each_within_limit limit window older
  end.

(** What the proof of the window property keeps: the allowed times so far
    ([hist], newest first) are not after [from]; the stored times and the
    allowed times count the same within the window before any time from
    [from] on; and while the instance is blocked, the block ends no earlier
    than a window after each allowed time. *)
Definition tracks (from : Z) (hist : list Z) (l : RateLimiter) : Prop :=
  Forall (λ a, a ≤ from) hist ∧
  (∀ now, from ≤ now →
     length (filter (λ x, now - x < timeWindow l) (requests l))
     = length (filter (λ x, now - x < timeWindow l) hist)) ∧
  (isBlocked l = true → Forall (λ a, a + timeWindow l ≤ blockUntil l) hist).

End ClientRateLimit.

(** ** Facts about the rate limiter *)

Module RateLimitFacts.
Import RateLimit.

(** The loop of [cleanupOldEntries] keeps exactly the entries that are not
    stale. *)
Lemma cleanupOldEntries_lookup now (store : gmap string IpData) ip :
  cleanupOldEntries now store !! ip =
  match store !! ip with
  | Some d => if stale now d then None else Some d
  | None => None
  end.
Proof.
  unfold cleanupOldEntries.
  cut (∀ acc : gmap string IpData,
         map_fold (cleanupStep now) acc store !! ip =
         match store !! ip with
         | Some d => if stale now d then None else acc !! ip
         | None => acc !! ip
         end).
  { intros H. rewrite H. destruct (store !! ip) as [d|]; done. }
  intros acc.
  apply (map_fold_weak_ind (λ r (m : gmap string IpData),
           r !! ip = match m !! ip with
                     | Some d => if stale now d then None else acc !! ip
                     | None => acc !! ip
                     end)).
  - by rewrite lookup_empty.
  - intros j x m r Hj IH. unfold cleanupStep. fold (stale now x).
    destruct (decide (j = ip)) as [->|Hne].
    + rewrite lookup_insert_eq. rewrite Hj in IH.
      destruct (stale now x); [apply lookup_delete_eq | exact IH].
    + rewrite lookup_insert_ne by done.
      destruct (stale now x); [rewrite lookup_delete_ne by done|]; exact IH.
Qed.

Lemma cleanupOldEntries_absent now (store : gmap string IpData) ip :
  store !! ip = None → cleanupOldEntries now store !! ip = None.
Proof. intros H. by rewrite cleanupOldEntries_lookup, H. Qed.

Lemma cleanupOldEntries_fresh now (store : gmap string IpData) ip d :
  store !! ip = Some d → now - resetTime d ≤ windowMs →
  cleanupOldEntries now store !! ip = Some d.
Proof.
  intros H Hw. rewrite cleanupOldEntries_lookup, H. unfold stale.
  destruct (Z.gtb_spec (now - resetTime d) windowMs); [lia | done].
Qed.

Lemma cleanupOldEntries_stale now (store : gmap string IpData) ip d :
  store !! ip = Some d → now - resetTime d > windowMs →
  cleanupOldEntries now store !! ip = None.
Proof.
  intros H Hw. rewrite cleanupOldEntries_lookup, H. unfold stale.
  destruct (Z.gtb_spec (now - resetTime d) windowMs); [done | lia].
Qed.

(** The first request of a client without an entry. *)
Lemma middleware_first ip now (store : gmap string IpData) :
  store !! ip = None →
  allowed (rateLimitMiddleware ip now store) ∧
  store_after (rateLimitMiddleware ip now store) !! ip
    = Some (mkIpData 1 now false 0).
Proof.
  intros H. unfold rateLimitMiddleware, updateRequestCounter.
  rewrite (cleanupOldEntries_absent _ _ _ H). simpl.
  rewrite lookup_insert_eq. by split.
Qed.

(** A request in the window of an entry that is not blocked and stays
    within the limit. *)
Lemma middleware_counting ip now (store : gmap string IpData) c t0 b :
  store !! ip = Some (mkIpData c t0 false b) →
  now - t0 ≤ windowMs → c + 1 ≤ maxRequests →
  allowed (rateLimitMiddleware ip now store) ∧
  store_after (rateLimitMiddleware ip now store) !! ip
    = Some (mkIpData (c + 1) t0 false b).
Proof.
  intros H Hw Hc. unfold rateLimitMiddleware, updateRequestCounter.
  rewrite (cleanupOldEntries_fresh _ _ _ _ H Hw). simpl.
  rewrite (cleanupOldEntries_fresh _ _ _ _ H Hw). simpl.
  destruct (Z.gtb_spec (c + 1) maxRequests); [lia|]. simpl.
  rewrite lookup_insert_eq. by split.
Qed.

(** The request that takes the count over the limit. *)
Lemma middleware_trigger ip now (store : gmap string IpData) c t0 b :
  store !! ip = Some (mkIpData c t0 false b) →
  now - t0 ≤ windowMs → c + 1 > maxRequests →
  let o := rateLimitMiddleware ip now store in
  response o = Some TooManyBlocked ∧ next_called o = true ∧
  store_after o !! ip = Some (mkIpData (c + 1) t0 true (now + blockDuration)).
Proof.
  intros H Hw Hc. unfold rateLimitMiddleware, updateRequestCounter.
  rewrite (cleanupOldEntries_fresh _ _ _ _ H Hw). simpl.
  rewrite (cleanupOldEntries_fresh _ _ _ _ H Hw). simpl.
  destruct (Z.gtb_spec (c + 1) maxRequests); [|lia]. simpl.
  rewrite lookup_insert_eq. done.
Qed.

(** A request to a blocked entry that the cleanup has kept, before the end
    of the block. *)
Lemma middleware_blocked ip now (store : gmap string IpData) c t0 until :
  store !! ip = Some (mkIpData c t0 true until) →
  now - t0 ≤ windowMs → now < until →
  let o := rateLimitMiddleware ip now store in
  denied o ∧ reported_wait o = Some (ceil_div_1000 (until - now)) ∧
  store_after o !! ip = Some (mkIpData c t0 true until).
Proof.
  intros H Hw Hu. unfold rateLimitMiddleware, denied, reported_wait.
  rewrite (cleanupOldEntries_fresh _ _ _ _ H Hw). simpl.
  destruct (Z.ltb_spec now until); [|lia]. simpl.
  by rewrite (cleanupOldEntries_fresh _ _ _ _ H Hw).
Qed.

(** A request after the window of the entry has passed: the cleanup has
    removed the entry, blocked or not, and a new window starts. *)
Lemma middleware_stale ip now (store : gmap string IpData) d :
  store !! ip = Some d → now - resetTime d > windowMs →
  allowed (rateLimitMiddleware ip now store) ∧
  store_after (rateLimitMiddleware ip now store) !! ip
    = Some (mkIpData 1 now false 0).
Proof.
  intros H Hw. unfold rateLimitMiddleware, updateRequestCounter.
  rewrite (cleanupOldEntries_stale _ _ _ _ H Hw). simpl.
  rewrite lookup_insert_eq. by split.
Qed.

(** Requests in the window of an entry, up to the limit. *)
Lemma requests_counting ip t0 b times :
  ∀ (store : gmap string IpData) c,
  store !! ip = Some (mkIpData c t0 false b) →
  Forall (λ t, t - t0 ≤ windowMs) times →
  c + Z.of_nat (length times) ≤ maxRequests →
  Forall allowed (fst (requests ip times store)) ∧
  length (fst (requests ip times store)) = length times ∧
  snd (requests ip times store) !! ip
    = Some (mkIpData (c + Z.of_nat (length times)) t0 false b).
Proof.
  induction times as [|t times IH]; intros store c H Hw Hc; simpl.
  - rewrite Z.add_0_r. by repeat split.
  - inversion Hw as [|? ? Ht Hts]; subst. simpl in Hc.
    destruct (middleware_counting ip t store c t0 b H Ht) as [Ha Hs]; [lia|].
    destruct (IH _ _ Hs Hts) as (IH1 & IH2 & IH3); [lia|].
    destruct (requests ip times (store_after (rateLimitMiddleware ip t store)))
      as [os final]; simpl in *.
    repeat split; [by constructor | by rewrite IH2 |].
    rewrite IH3. f_equal. f_equal. lia.
Qed.

(** C1, as the specification states it, fails for the eleventh request of a
    burst: the request that takes the count over the limit is answered with
    status 429, yet [next()] is called for it, and its message carries no
    number of seconds to wait. *)
Lemma eleventh_request_passed_on_without_wait :
  Forall allowed (fst (requests burst_client burst_times ∅)) ∧
  ¬ denied eleventh ∧ reported_wait eleventh = None.
Proof.
  split; [|split].
  - repeat constructor.
  - unfold denied. vm_compute. discriminate.
  - vm_compute. reflexivity.
Qed.

(** C1, amended.  For a client without an entry, ten requests of which
    each is within [windowMs] of the first are all allowed.  An eleventh
    request within the same window is answered with the fixed 429 message,
    which carries no waiting time, and leaves the entry blocked until
    [now + blockDuration].  A later request within that window and before
    the end of the block is denied and reports
    [ceil ((blockedUntil - now) / 1000)] seconds, which is
    [blockDuration / 1000] at the instant of the block. *)
Theorem admission_boundary (store : gmap string IpData) ip t0 ts t11 :
  store !! ip = None →
  length ts = 9%nat →
  Forall (λ t, t - t0 ≤ windowMs) ts →
  t11 - t0 ≤ windowMs →
  let run := requests ip (t0 :: ts) store in
  let o11 := rateLimitMiddleware ip t11 (snd run) in
  length (fst run) = Z.to_nat maxRequests ∧
  Forall allowed (fst run) ∧
  response o11 = Some TooManyBlocked ∧
  reported_wait o11 = None ∧
  store_after o11 !! ip
    = Some (mkIpData (maxRequests + 1) t0 true (t11 + blockDuration)) ∧
  (∀ t12, t12 - t0 ≤ windowMs → t12 < t11 + blockDuration →
     denied (rateLimitMiddleware ip t12 (store_after o11)) ∧
     reported_wait (rateLimitMiddleware ip t12 (store_after o11))
       = Some (ceil_div_1000 (t11 + blockDuration - t12))) ∧
  reported_wait (rateLimitMiddleware ip t11 (store_after o11))
    = Some (blockDuration / 1000).
Proof.
  intros Habs Hlen Hts H11. simpl.
  destruct (middleware_first ip t0 store Habs) as [Ha Hs].
  destruct (requests_counting ip t0 0 ts _ 1 Hs Hts) as (Hall & Hl & Hfin).
  { rewrite Hlen. unfold maxRequests. lia. }
  rewrite Hlen in Hfin.
  destruct (requests ip ts (store_after (rateLimitMiddleware ip t0 store)))
    as [os final]; simpl in *.
  destruct (middleware_trigger ip t11 final _ t0 0 Hfin H11) as (Hr & _ & Hst).
  { unfold maxRequests. lia. }
  assert (Hblocked : ∀ t12, t12 - t0 ≤ windowMs → t12 < t11 + blockDuration →
     denied (rateLimitMiddleware ip t12
               (store_after (rateLimitMiddleware ip t11 final))) ∧
     reported_wait (rateLimitMiddleware ip t12
               (store_after (rateLimitMiddleware ip t11 final)))
       = Some (ceil_div_1000 (t11 + blockDuration - t12))).
  { intros t12 H12 Hlt.
    destruct (middleware_blocked ip t12 _ _ t0 _ Hst H12 Hlt) as (Hd & Hw & _).
    by split. }
  repeat split.
  - rewrite Hl, Hlen. reflexivity.
  - by constructor.
  - exact Hr.
  - unfold reported_wait. by rewrite Hr.
  - exact Hst.
  - by apply Hblocked.
  - by apply Hblocked.
  - destruct (Hblocked t11 H11) as [_ Hw]; [unfold blockDuration; lia|].
    rewrite Hw. f_equal. replace (t11 + blockDuration - t11) with blockDuration by lia.
    reflexivity.
Qed.

Lemma admission_boundary_witness :
  (∅ : gmap string IpData) !! burst_client = None ∧
  length [1; 2; 3; 4; 5; 6; 7; 8; 9] = 9%nat ∧
  Forall (λ t, t - 0 ≤ windowMs) [1; 2; 3; 4; 5; 6; 7; 8; 9] ∧
  10 - 0 ≤ windowMs ∧
  response eleventh = Some TooManyBlocked ∧
  store_after eleventh !! burst_client
    = Some (mkIpData 11 0 true 300010) ∧
  reported_wait (rateLimitMiddleware burst_client 10 (store_after eleventh))
    = Some 300.
Proof.
  assert (H0 : (∅ : gmap string IpData) !! burst_client = None) by reflexivity.
  assert (H1 : length [1; 2; 3; 4; 5; 6; 7; 8; 9] = 9%nat) by reflexivity.
  assert (H2 : Forall (λ t, t - 0 ≤ windowMs) [1; 2; 3; 4; 5; 6; 7; 8; 9]).
  { repeat constructor; unfold windowMs; lia. }
  assert (H3 : 10 - 0 ≤ windowMs) by (unfold windowMs; lia).
  pose proof (admission_boundary ∅ burst_client 0 [1; 2; 3; 4; 5; 6; 7; 8; 9] 10
                H0 H1 H2 H3) as (_ & _ & Hr & _ & Hst & _ & Hw).
  repeat split; assumption.
Defined.

(** C2: after a block is set at time 10 (so until 300010), the request at
    [10 + 299000] is not denied.  Its window began at 0, so
    [cleanupOldEntries] has removed the blocked entry before the block is
    looked at, and the request opens a new window. *)
Lemma request_299s_after_block_is_allowed :
  store_after eleventh !! burst_client = Some (mkIpData 11 0 true 300010) ∧
  let o := rateLimitMiddleware burst_client (10 + 299000) (store_after eleventh) in
  10 + 299000 < 300010 ∧
  allowed o ∧
  store_after o !! burst_client = Some (mkIpData 1 299010 false 0).
Proof. vm_compute. repeat split; congruence. Qed.

(** A blocked entry is forgotten as soon as its window is over, whatever
    [blockedUntil] says: the block lasts until [resetTime + windowMs] at
    most. *)
Lemma block_ends_with_window ip now (store : gmap string IpData) c t0 until :
  store !! ip = Some (mkIpData c t0 true until) →
  now - t0 > windowMs →
  allowed (rateLimitMiddleware ip now store).
Proof. intros H Hw. by destruct (middleware_stale ip now store _ H Hw). Qed.

(** The request at [10 + 301000] is allowed as the first of a new window. *)
Lemma request_301s_after_block_is_allowed :
  let o := rateLimitMiddleware burst_client (10 + 301000) (store_after eleventh) in
  allowed o ∧ store_after o !! burst_client = Some (mkIpData 1 301010 false 0).
Proof. vm_compute. repeat split; congruence. Qed.

(** C3: the purge at time 60001 removes the entry that is blocked until
    300010. *)
Lemma purge_removes_blocked_entry :
  store_after eleventh !! burst_client = Some (mkIpData 11 0 true 300010) ∧
  60001 < 300010 ∧
  cleanupOldEntries 60001 (store_after eleventh) !! burst_client = None.
Proof. vm_compute. repeat split; congruence. Qed.

(** Fifteen requests in a row from one client without an entry: ten are
    allowed, the eleventh is answered 429 and passed on all the same, the
    last four are denied. *)
Example fifteen_in_a_row :
  (λ o, (response o, next_called o)) <$>
    fst (requests burst_client (burst_times ++ [10; 11; 12; 13; 14]) ∅)
  = replicate 10 (None, true)
    ++ [(Some TooManyBlocked, true)]
    ++ replicate 4 (Some (TooManyRetryIn 300), false).
Proof. vm_compute. reflexivity. Qed.

End RateLimitFacts.

(** ** Facts about the conversation memory *)

Module ChatFacts.
Import Chat.

(** *** Lists and strings *)

Lemma string_app_assoc (a b c : string) : (a +:+ b) +:+ c = a +:+ (b +:+ c).
Proof.
  induction a as [|x a IH]; [reflexivity|].
  change (String x ((a +:+ b) +:+ c) = String x (a +:+ (b +:+ c))).
  by rewrite IH.
Qed.

Lemma string_app_empty_r (a : string) : a +:+ "" = a.
Proof.
  induction a as [|x a IH]; [reflexivity|].
  change (String x (a +:+ "") = String x a). by rewrite IH.
Qed.

(** [slice] with a negative start keeps the last elements. *)
Lemma slice_from_negative {A} (n : nat) (l : list A) :
  (0 < n)%nat → slice_from (- Z.of_nat n) l = most_recent n l.
Proof.
  intros Hn. unfold slice_from, most_recent.
  destruct (Z.ltb_spec (- Z.of_nat n) 0); [|lia].
  f_equal. lia.
Qed.

Lemma most_recent_all {A} (n : nat) (l : list A) :
  (length l ≤ n)%nat → most_recent n l = l.
Proof.
  intros H. unfold most_recent.
  replace (length l - n)%nat with 0%nat by lia. apply drop_0.
Qed.

Lemma most_recent_length {A} (n : nat) (l : list A) :
  length (most_recent n l) = Nat.min n (length l).
Proof. unfold most_recent. rewrite length_drop. lia. Qed.

Lemma most_recent_app {A} (n : nat) (l k : list A) :
  most_recent n (most_recent n l ++ k) = most_recent n (l ++ k).
Proof.
  destruct (decide (length l ≤ n)%nat) as [Hle|Hgt].
  { by rewrite (most_recent_all n l). }
  unfold most_recent at 1 3.
  rewrite !length_app, most_recent_length.
  unfold most_recent. rewrite !drop_app, drop_drop, length_drop.
  f_equal; f_equal; lia.
Qed.

(** The length test of [addToConversationHistory] followed by the slice. *)
Lemma limit_most_recent {A} (l : list A) :
  (if Z.of_nat (length l) >? MAX_CONVERSATION_LENGTH * 2
   then slice_from (- MAX_CONVERSATION_LENGTH * 2) l else l)
  = most_recent 20 l.
Proof.
  destruct (Z.gtb_spec (Z.of_nat (length l)) (MAX_CONVERSATION_LENGTH * 2)) as [H|H].
  - apply (slice_from_negative 20). lia.
  - symmetry. apply most_recent_all. unfold MAX_CONVERSATION_LENGTH in H. lia.
Qed.

(** *** The store *)

Lemma getConversationHistory_messages now sid (mem : gmap string Conversation) :
  messages (snd (getConversationHistory now sid mem)) = stored sid mem.
Proof.
  unfold getConversationHistory, stored. by destruct (mem !! sid).
Qed.

Lemma getConversationHistory_other now sid sid' (mem : gmap string Conversation) :
  sid ≠ sid' → fst (getConversationHistory now sid mem) !! sid' = mem !! sid'.
Proof.
  intros Hne. unfold getConversationHistory.
  destruct (mem !! sid); [done|]. simpl. by rewrite lookup_insert_ne.
Qed.

(** What one [addToConversationHistory] leaves under its session id. *)
Lemma addToConversationHistory_lookup tk sid r c (mem : gmap string Conversation) :
  addToConversationHistory tk sid r c mem !! sid
  = Some (mkConversation (most_recent 20 (stored sid mem ++ [turn_of (tk, r, c)]))
                         (t_activity tk)).
Proof.
  unfold addToConversationHistory.
  pose proof (getConversationHistory_messages (t_create tk) sid mem) as Hm.
  destruct (getConversationHistory (t_create tk) sid mem) as [mem1 conv].
  simpl in Hm. rewrite lookup_insert_eq, limit_most_recent, Hm. reflexivity.
Qed.

Lemma addToConversationHistory_other tk sid sid' r c (mem : gmap string Conversation) :
  sid ≠ sid' → addToConversationHistory tk sid r c mem !! sid' = mem !! sid'.
Proof.
  intros Hne. unfold addToConversationHistory.
  pose proof (getConversationHistory_other (t_create tk) sid sid' mem Hne) as Ho.
  destruct (getConversationHistory (t_create tk) sid mem) as [mem1 conv].
  simpl in Ho. by rewrite lookup_insert_ne.
Qed.

Lemma addToConversationHistory_stored tk sid r c (mem : gmap string Conversation) :
  stored sid (addToConversationHistory tk sid r c mem)
  = most_recent 20 (stored sid mem ++ [turn_of (tk, r, c)]).
Proof.
  unfold stored at 1. by rewrite addToConversationHistory_lookup.
Qed.

(** The turns stored after a run of calls on one session. *)
Lemma recordAll_stored sid calls :
  ∀ mem : gmap string Conversation,
  stored sid (recordAll sid calls mem) =
  match calls with
  | [] => stored sid mem
  | _ => most_recent 20 (stored sid mem ++ (turn_of <$> calls))
  end.
Proof.
  induction calls as [|[[tk r] c] rest IH]; intros mem; [done|].
  simpl recordAll. rewrite IH, addToConversationHistory_stored.
  destruct rest as [|call rest]; [done|].
  rewrite most_recent_app, <- app_assoc. reflexivity.
Qed.

Lemma recordAll_lastActivity sid calls :
  ∀ (mem : gmap string Conversation) call,
  lastActivity <$> (recordAll sid (calls ++ [call]) mem !! sid)
  = Some (t_activity (fst (fst call))).
Proof.
  induction calls as [|[[tk r] c] rest IH]; intros mem [[tk' r'] c'].
  - simpl. by rewrite addToConversationHistory_lookup.
  - simpl. apply IH.
Qed.

(** The loop of [cleanupOldConversations] keeps exactly the sessions whose
    last activity is not before the cutoff. *)
Lemma cleanupOldConversations_lookup now (mem : gmap string Conversation) sid :
  cleanupOldConversations now mem !! sid =
  match mem !! sid with
  | Some conv =>
      if lastActivity conv <? now - MEMORY_CLEANUP_INTERVAL then None else Some conv
  | None => None
  end.
Proof.
  unfold cleanupOldConversations.
  set (cutoff := now - MEMORY_CLEANUP_INTERVAL).
  cut (∀ acc : gmap string Conversation,
         map_fold (cleanupConversationStep cutoff) acc mem !! sid =
         match mem !! sid with
         | Some conv => if lastActivity conv <? cutoff then None else acc !! sid
         | None => acc !! sid
         end).
  { intros H. rewrite H. destruct (mem !! sid); done. }
  intros acc.
  apply (map_fold_weak_ind (λ r (m : gmap string Conversation),
           r !! sid = match m !! sid with
                      | Some conv =>
                          if lastActivity conv <? cutoff then None else acc !! sid
                      | None => acc !! sid
                      end)).
  - by rewrite lookup_empty.
  - intros j x m r Hj IH. unfold cleanupConversationStep.
    destruct (decide (j = sid)) as [->|Hne].
    + rewrite lookup_insert_eq. rewrite Hj in IH.
      destruct (lastActivity x <? cutoff); [apply lookup_delete_eq | exact IH].
    + rewrite lookup_insert_ne by done.
      destruct (lastActivity x <? cutoff);
        [rewrite lookup_delete_ne by done|]; exact IH.
Qed.

(** The [forEach] of [buildConversationContext] appends one rendered line
    per message. *)
Lemma fold_appendLine msgs :
  ∀ context, fold_left appendLine msgs context
             = context +:+ joinLines (renderTurn <$> msgs).
Proof.
  induction msgs as [|m msgs IH]; intros context; simpl.
  - by rewrite string_app_empty_r.
  - rewrite IH, <- string_app_assoc. f_equal.
    unfold appendLine, renderTurn, roleLabel.
    destruct (String.eqb (role m) "user"); reflexivity.
Qed.

Lemma buildConversationContext_transcript msgs :
  buildConversationContext msgs = transcript 8 msgs.
Proof.
  destruct msgs as [|m msgs]; [reflexivity|].
  unfold buildConversationContext, transcript.
  change (length (m :: msgs) =? 0)%nat with false. cbv iota.
  rewrite fold_appendLine, (slice_from_negative 8) by lia.
  apply string_app_assoc.
Qed.

(** *** The claims *)

(** C4, as the specification states it, fails: building the context for a
    session that has no entry puts an entry without turns in the store. *)
Lemma context_creates_empty_session :
  fst (chatContext 1000 browser ∅) ≠ ∅ ∧
  fst (chatContext 1000 browser ∅) !! generateSessionId browser
    = Some (mkConversation [] 1000).
Proof.
  split; [|reflexivity].
  intros H. apply (f_equal (λ m, m !! generateSessionId browser)) in H.
  vm_compute in H. discriminate.
Qed.

(** C4, amended.  Building the context for a session that has an entry
    leaves the store as it is, so no [lastActivity] changes.  For a session
    without an entry it adds an entry with no turns and [lastActivity] the
    current time, and nothing else changes.  A call of
    [addToConversationHistory] leaves an entry for its session too, so the
    entry of a session is created by whichever of the two comes first. *)
Theorem context_store_effect now req (mem : gmap string Conversation)
    tk r c :
  fst (chatContext now req mem) =
    match mem !! generateSessionId req with
    | Some _ => mem
    | None => <[generateSessionId req := mkConversation [] now]> mem
    end ∧
  is_Some (addToConversationHistory tk (generateSessionId req) r c mem
             !! generateSessionId req).
Proof.
  split.
  - unfold chatContext, getConversationHistory.
    by destruct (mem !! generateSessionId req).
  - rewrite addToConversationHistory_lookup. eauto.
Qed.

(** C5.  After any non-empty run of [addToConversationHistory] on one
    session, the stored turns are the most recent twenty of the turns
    stored before followed by the turns appended, in that order; so there
    are at most [2 * MAX_CONVERSATION_LENGTH] of them. *)
Theorem window_bound sid call calls (mem : gmap string Conversation) :
  ∃ conv,
    recordAll sid (call :: calls) mem !! sid = Some conv ∧
    messages conv
      = most_recent (Z.to_nat (MAX_CONVERSATION_LENGTH * 2))
          (stored sid mem ++ (turn_of <$> call :: calls)) ∧
    (length (messages conv) ≤ Z.to_nat (2 * MAX_CONVERSATION_LENGTH))%nat ∧
    messages conv `suffix_of` stored sid mem ++ (turn_of <$> call :: calls).
Proof.
  pose proof (recordAll_stored sid (call :: calls) mem) as Hst.
  unfold stored at 1 in Hst.
  destruct (recordAll sid (call :: calls) mem !! sid) as [conv|] eqn:Hl.
  - exists conv. split; [done|]. rewrite Hst.
    change (Z.to_nat (MAX_CONVERSATION_LENGTH * 2)) with 20%nat.
    change (Z.to_nat (2 * MAX_CONVERSATION_LENGTH)) with 20%nat.
    split; [done|]. split.
    + rewrite most_recent_length. lia.
    + apply suffix_drop.
  - exfalso. destruct call as [[tk r] c]. simpl in Hl.
    assert (is_Some (recordAll sid calls
              (addToConversationHistory tk sid r c mem) !! sid)) as [x Hx];
      [|congruence].
    clear Hst Hl. generalize (addToConversationHistory_lookup tk sid r c mem).
    generalize (addToConversationHistory tk sid r c mem).
    intros m0 Hm0. assert (Hs : is_Some (m0 !! sid)) by eauto. clear Hm0.
    revert m0 Hs. induction calls as [|[[tk' r'] c'] rest IH]; intros m0 Hs; [done|].
    simpl. apply IH. rewrite addToConversationHistory_lookup. eauto.
Qed.

(** C6.  [cleanupOldConversations] run at [now] removes a session whose
    last activity is more than [MEMORY_CLEANUP_INTERVAL] before [now] and
    leaves every other session as it is. *)
Theorem idle_expiry now (mem : gmap string Conversation) sid conv :
  mem !! sid = Some conv →
  (now - lastActivity conv > MEMORY_CLEANUP_INTERVAL →
     cleanupOldConversations now mem !! sid = None) ∧
  (now - lastActivity conv ≤ MEMORY_CLEANUP_INTERVAL →
     cleanupOldConversations now mem !! sid = Some conv).
Proof.
  intros H. rewrite cleanupOldConversations_lookup, H.
  destruct (Z.ltb_spec (lastActivity conv) (now - MEMORY_CLEANUP_INTERVAL));
    split; intros; (done || lia).
Qed.

Lemma idle_expiry_witness :
  let mem : gmap string Conversation :=
    {[ "idle" := mkConversation [] 0; "busy" := mkConversation [] 1 ]} in
  (mem !! "idle" = Some (mkConversation [] 0) ∧
   1800001 - 0 > MEMORY_CLEANUP_INTERVAL ∧
   cleanupOldConversations 1800001 mem !! "idle" = None) ∧
  (mem !! "busy" = Some (mkConversation [] 1) ∧
   1800001 - 1 ≤ MEMORY_CLEANUP_INTERVAL ∧
   cleanupOldConversations 1800001 mem !! "busy" = Some (mkConversation [] 1)).
Proof.
  intros mem.
  assert (Hi : mem !! "idle" = Some (mkConversation [] 0)) by reflexivity.
  assert (Hb : mem !! "busy" = Some (mkConversation [] 1)) by reflexivity.
  assert (Hgt : 1800001 - 0 > MEMORY_CLEANUP_INTERVAL) by reflexivity.
  assert (Hle : 1800001 - 1 ≤ MEMORY_CLEANUP_INTERVAL) by (vm_compute; discriminate).
  split.
  - split; [exact Hi|]. split; [exact Hgt|].
    exact (proj1 (idle_expiry 1800001 mem "idle" _ Hi) Hgt).
  - split; [exact Hb|]. split; [exact Hle|].
    exact (proj2 (idle_expiry 1800001 mem "busy" _ Hb) Hle).
Defined.

(** C7.  The context built for a session is the empty string when the
    session has no turns.  Otherwise it is the header, then one line per
    turn for the eight most recent turns at most, oldest first, each line
    being the role label, a colon, the text and a line feed, then the
    prompt for the new question, with which the string ends. *)
Theorem context_rendering now req (mem : gmap string Conversation) :
  let turns := stored (generateSessionId req) mem in
  snd (chatContext now req mem) =
    match turns with
    | [] => ""
    | _ => contextHeader
           +:+ joinLines (renderTurn <$> most_recent 8 turns)
           +:+ promptMarker
    end ∧
  (length (most_recent 8 turns) ≤ 8)%nat ∧
  most_recent 8 turns `suffix_of` turns ∧
  (∀ m, renderTurn m =
        (if decide (role m = "user") then "Pengguna" else "Sahabat Nusantara")
        +:+ ": " +:+ content m +:+ LF).
Proof.
  simpl. repeat split.
  - unfold chatContext.
    pose proof (getConversationHistory_messages now (generateSessionId req) mem) as Hm.
    destruct (getConversationHistory now (generateSessionId req) mem) as [mem1 conv].
    simpl in *. by rewrite buildConversationContext_transcript, Hm.
  - rewrite most_recent_length. lia.
  - apply suffix_drop.
  - intros m. unfold renderTurn, roleLabel.
    destruct (String.eqb_spec (role m) "user"); case_decide; done.
Qed.

(** C8.  [handleClearConversation] always answers with success.  For a
    session without an entry it leaves the store, and so the number of
    entries, as it is; and a second call leaves the store as the first one
    left it. *)
Theorem clear_idempotent req (mem : gmap string Conversation) :
  snd (handleClearConversation req mem) = ClearSuccess (generateSessionId req) ∧
  (mem !! generateSessionId req = None →
     fst (handleClearConversation req mem) = mem ∧
     size (fst (handleClearConversation req mem)) = size mem) ∧
  handleClearConversation req (fst (handleClearConversation req mem))
    = handleClearConversation req mem.
Proof.
  unfold handleClearConversation. simpl. split; [done|]. split.
  - by intros ->.
  - destruct (mem !! generateSessionId req) eqn:H.
    + by rewrite lookup_delete_eq.
    + by rewrite H.
Qed.

Lemma clear_idempotent_witness :
  let mem : gmap string Conversation :=
    {[ generateSessionId office_pc := mkConversation [] 5 ]} in
  mem !! generateSessionId browser = None ∧
  handleClearConversation browser mem = (mem, ClearSuccess (generateSessionId browser)) ∧
  size (fst (handleClearConversation browser mem)) = 1%nat.
Proof.
  intros mem.
  assert (H : mem !! generateSessionId browser = None) by reflexivity.
  destruct (clear_idempotent browser mem) as (Hr & Habs & _).
  destruct (Habs H) as [Hm Hs].
  split; [exact H|]. split.
  - rewrite <- Hm at 2. rewrite <- Hr. by destruct (handleClearConversation browser mem).
  - rewrite Hs. reflexivity.
Defined.

(** The specification's example of a rendered context. *)
Example context_of_borobudur :
  snd (chatContext 9 browser (recordAll (generateSessionId browser) borobudur ∅))
  = LF +:+ LF +:+ "Konteks percakapan sebelumnya:" +:+ LF
    +:+ "Pengguna: Apa itu Borobudur?" +:+ LF
    +:+ "Sahabat Nusantara: Borobudur adalah candi Buddha..." +:+ LF
    +:+ LF +:+ "Pertanyaan pengguna saat ini: ".
Proof. vm_compute. reflexivity. Qed.

(** *** Session ids *)

(** The first [4 * n] characters of the base64 text are the base64 text of
    the first [3 * n] bytes. *)
Lemma base64_prefix n :
  ∀ buf, substring 0 (4 * n) (base64 buf) = base64 (substring 0 (3 * n) buf).
Proof.
  induction n as [|n IH]; intros buf.
  - change (4 * 0)%nat with 0%nat. change (3 * 0)%nat with 0%nat.
    assert (Hz : ∀ s, substring 0 0 s = "") by (by intros []).
    by rewrite !Hz.
  - replace (4 * S n)%nat with (S (S (S (S (4 * n))))) by lia.
    replace (3 * S n)%nat with (S (S (S (3 * n)))) by lia.
    specialize (IH (match buf with
                    | String _ (String _ (String _ rest)) => rest
                    | _ => ""
                    end)).
    remember (4 * n)%nat as k4. remember (3 * n)%nat as k3.
    destruct buf as [|a [|b [|c rest]]]; simpl;
      try done.
    + by destruct k4.
    + by destruct k4.
    + by rewrite IH.
Qed.

(** C10.  The session id is the base64 text of the first twelve bytes of
    the identity string, so two requests whose identity strings agree on
    their first twelve bytes have the same session id. *)
Theorem session_id_from_first_12_bytes (req1 req2 : Request) :
  generateSessionId req1 = base64 (substring 0 12 (identityString req1)) ∧
  (substring 0 12 (identityString req1) = substring 0 12 (identityString req2) →
   generateSessionId req1 = generateSessionId req2).
Proof.
  assert (H : ∀ req, generateSessionId req
                     = base64 (substring 0 12 (identityString req))).
  { intros req. unfold generateSessionId. apply (base64_prefix 4). }
  split; [apply H|]. intros Heq. by rewrite !H, Heq.
Qed.

Lemma session_id_from_first_12_bytes_witness :
  substring 0 12 (identityString office_pc)
    = substring 0 12 (identityString office_phone) ∧
  identityString office_pc ≠ identityString office_phone ∧
  generateSessionId office_pc = generateSessionId office_phone ∧
  generateSessionId office_pc = "MTkyLjE2OC4xMDAu".
Proof.
  assert (H : substring 0 12 (identityString office_pc)
              = substring 0 12 (identityString office_phone)) by reflexivity.
  split; [exact H|]. split; [discriminate|].
  split; [exact (proj2 (session_id_from_first_12_bytes office_pc office_phone) H)|].
  reflexivity.
Defined.

End ChatFacts.

(** ** More about the rate limiter *)

Module RateLimitProps.
Import RateLimit RateLimitFacts.

(** The store after a request, entry by entry. *)
Lemma middleware_store_cases ip now (store : gmap string IpData) :
  let s1 := cleanupOldEntries now store in
  store_after (rateLimitMiddleware ip now store) =
  match s1 !! ip with
  | None => <[ip := mkIpData 1 now false 0]> s1
  | Some d =>
      if blocked d then
        if now <? blockedUntil d then s1
        else <[ip := mkIpData 1 now false 0]> (delete ip s1)
      else if count d + 1 >? maxRequests
        then <[ip := mkIpData (count d + 1) (resetTime d) true (now + blockDuration)]> s1
        else <[ip := mkIpData (count d + 1) (resetTime d) false (blockedUntil d)]> s1
  end.
Proof.
  simpl. unfold rateLimitMiddleware, updateRequestCounter.
  destruct (cleanupOldEntries now store !! ip) as [d|] eqn:Hd; simpl.
  - destruct d as [c r [] u]; simpl.
    + destruct (Z.ltb_spec now u); simpl; [done|].
      destruct (Z.geb_spec now u); [|lia]. simpl.
      rewrite lookup_delete_eq. reflexivity.
    + rewrite ?Hd. simpl. destruct (c + 1 >? maxRequests); reflexivity.
  - rewrite ?Hd. reflexivity.
Qed.

Lemma cleanupOldEntries_recent now (store : gmap string IpData) :
  map_Forall (λ _ d, now - resetTime d ≤ windowMs) (cleanupOldEntries now store).
Proof.
  intros ip d. rewrite cleanupOldEntries_lookup.
  destruct (store !! ip) as [d0|]; [|done]. unfold stale.
  destruct (Z.gtb_spec (now - resetTime d0) windowMs); [done|].
  intros [= <-]. lia.
Qed.

(** X1.  After a request handled at [now] the store holds no entry whose
    window began more than [windowMs] before [now]: every entry that
    [getRateLimitStats] lists is recent, and [totalIPs] counts them. *)
Theorem store_recent_after_request ip now (store : gmap string IpData) :
  let stats := getRateLimitStats (store_after (rateLimitMiddleware ip now store)) in
  Forall (λ e, now - resetTime e.2 ≤ windowMs) (entries stats) ∧
  totalIPs stats = length (entries stats).
Proof.
  simpl. split; [|by rewrite length_map_to_list].
  cut (map_Forall (λ _ d, now - resetTime d ≤ windowMs)
         (store_after (rateLimitMiddleware ip now store))).
  { intros H%map_Forall_to_list.
    eapply Forall_impl; [exact H|]. by intros [k d]. }
  rewrite middleware_store_cases. simpl.
  pose proof (cleanupOldEntries_recent now store) as Hrec.
  assert (Hnew : now - resetTime (mkIpData 1 now false 0) ≤ windowMs)
    by (simpl; unfold windowMs; lia).
  destruct (cleanupOldEntries now store !! ip) as [d|] eqn:Hd.
  - pose proof (Hrec ip d Hd) as Hd'. simpl in Hd'.
    destruct (blocked d).
    + destruct (now <? blockedUntil d); [done|].
      apply map_Forall_insert_2; [done|]. by apply map_Forall_delete.
    + destruct (count d + 1 >? maxRequests); by apply map_Forall_insert_2.
  - by apply map_Forall_insert_2.
Qed.

(** X2.  A request of one client leaves the entry of every other client as
    the purge leaves it: kept as it is when its window is still open,
    removed otherwise.  It never counts against another client and never
    blocks one. *)
Theorem other_clients_untouched ip ip' now (store : gmap string IpData) :
  ip ≠ ip' →
  store_after (rateLimitMiddleware ip now store) !! ip' =
  match store !! ip' with
  | Some d => if now - resetTime d >? windowMs then None else Some d
  | None => None
  end.
Proof.
  intros Hne.
  transitivity (cleanupOldEntries now store !! ip');
    [|by rewrite cleanupOldEntries_lookup].
  rewrite middleware_store_cases. simpl.
  destruct (cleanupOldEntries now store !! ip) as [d|].
  - destruct (blocked d).
    + destruct (now <? blockedUntil d); [done|].
      by rewrite lookup_insert_ne, lookup_delete_ne.
    + destruct (count d + 1 >? maxRequests); by rewrite lookup_insert_ne.
  - by rewrite lookup_insert_ne.
Qed.

Lemma other_clients_untouched_witness :
  "198.51.100.9" ≠ burst_client ∧
  store_after (rateLimitMiddleware "198.51.100.9" 20 (store_after eleventh))
    !! burst_client = Some (mkIpData 11 0 true 300010) ∧
  store_after (rateLimitMiddleware "198.51.100.9" 60001 (store_after eleventh))
    !! burst_client = None.
Proof.
  assert (Hne : "198.51.100.9" ≠ burst_client) by discriminate.
  split; [done|]. split.
  - by rewrite (other_clients_untouched _ _ 20 (store_after eleventh) Hne).
  - by rewrite (other_clients_untouched _ _ 60001 (store_after eleventh) Hne).
Defined.

Lemma middleware_entry_ok ip now (store : gmap string IpData) :
  map_Forall (λ _, entry_ok) store →
  map_Forall (λ _, entry_ok) (store_after (rateLimitMiddleware ip now store)).
Proof.
  intros Hok.
  assert (Hs1 : map_Forall (λ _, entry_ok) (cleanupOldEntries now store)).
  { intros k d. rewrite cleanupOldEntries_lookup.
    destruct (store !! k) as [d0|] eqn:Hk; [|done].
    destruct (stale now d0); [done|]. intros [= <-]. by apply (Hok k). }
  assert (Hfresh : entry_ok (mkIpData 1 now false 0)).
  { unfold entry_ok, maxRequests. simpl. lia. }
  rewrite middleware_store_cases. simpl.
  destruct (cleanupOldEntries now store !! ip) as [d|] eqn:Hd.
  - pose proof (Hs1 ip d Hd) as Hdok.
    pose proof (cleanupOldEntries_recent now store ip d Hd) as Hrec. simpl in Hrec.
    unfold entry_ok in Hdok.
    destruct (blocked d) eqn:Hb.
    + destruct (now <? blockedUntil d); [done|].
      apply map_Forall_insert_2; [done|]. by apply map_Forall_delete.
    + destruct (Z.gtb_spec (count d + 1) maxRequests);
        (apply map_Forall_insert_2; [|done]); unfold entry_ok; simpl; lia.
  - by apply map_Forall_insert_2.
Qed.

(** X3.  Whatever requests of whatever clients the server has handled,
    starting with an empty store, every entry is either counting, with a
    count from 1 to [maxRequests] and [blockedUntil = 0], or blocked, with
    the count [maxRequests + 1] at which the block was set.  A blocked
    client is not counted any further. *)
Theorem entries_well_formed (reqs : list (string * Z)) :
  map_Forall (λ _, entry_ok) (serve reqs ∅).
Proof.
  assert (H : ∀ store : gmap string IpData,
            map_Forall (λ _, entry_ok) store →
            map_Forall (λ _, entry_ok) (serve reqs store)).
  { induction reqs as [|[ip now] rest IH]; intros store Hok; [done|].
    simpl. apply IH. by apply middleware_entry_ok. }
  apply H, map_Forall_empty.
Qed.

(** Runs of requests compose. *)
Lemma requests_app ip ts1 :
  ∀ ts2 (store : gmap string IpData),
  requests ip (ts1 ++ ts2) store =
  (fst (requests ip ts1 store) ++ fst (requests ip ts2 (snd (requests ip ts1 store))),
   snd (requests ip ts2 (snd (requests ip ts1 store)))).
Proof.
  induction ts1 as [|t ts1 IH]; intros ts2 store; simpl.
  - by destruct (requests ip ts2 store).
  - rewrite IH.
    destruct (requests ip ts1 (store_after (rateLimitMiddleware ip t store)))
      as [os1 s1]; simpl.
    by destruct (requests ip ts2 s1).
Qed.

(** Requests to a blocked entry, in its window and before the end of the
    block. *)
Lemma requests_blocked ip t0 c until ts :
  ∀ store : gmap string IpData,
  store !! ip = Some (mkIpData c t0 true until) →
  Forall (λ t, t - t0 ≤ windowMs ∧ t < until) ts →
  Forall (λ o, denied o ∧ ∃ s, response o = Some (TooManyRetryIn s))
         (fst (requests ip ts store)).
Proof.
  induction ts as [|t ts IH]; intros store H Hts; simpl; [constructor|].
  inversion Hts as [|? ? [Hw Hu] Hrest]; subst.
  destruct (middleware_blocked ip t store c t0 until H Hw Hu) as (Hd & Hr & Hs).
  specialize (IH _ Hs Hrest).
  destruct (requests ip ts (store_after (rateLimitMiddleware ip t store)))
    as [os final]; simpl in *.
  constructor; [|done]. split; [done|].
  unfold reported_wait in Hr.
  destruct (response (rateLimitMiddleware ip t store)) as [[s|]|]; [eauto|done..].
Qed.

(** Requests in the window of a counting entry that has counted [c]
    requests: the request at position [i] is the one at position [c + i] of
    the window. *)
Lemma requests_in_window ip t0 ts :
  ∀ (store : gmap string IpData) c,
  store !! ip = Some (mkIpData c t0 false 0) →
  1 ≤ c ≤ maxRequests →
  Forall (λ t, t0 ≤ t ≤ t0 + windowMs) ts →
  ∀ i o, fst (requests ip ts store) !! i = Some o →
         burst_outcome (Z.to_nat c + i) o.
Proof.
  induction ts as [|t ts IH]; intros store c H Hc Hts i o Hi; [done|].
  inversion Hts as [|? ? Ht Hrest]; subst. simpl in Hi.
  destruct (decide (c + 1 ≤ maxRequests)) as [Hle|Hgt].
  - destruct (middleware_counting ip t store c t0 0 H) as [Ha Hs]; [lia..|].
    specialize (IH _ (c + 1) Hs).
    destruct (requests ip ts (store_after (rateLimitMiddleware ip t store)))
      as [os final]; simpl in *.
    destruct i as [|i]; simpl in Hi.
    + injection Hi as <-. unfold burst_outcome, maxRequests in *.
      case_decide; [done|lia].
    + replace (Z.to_nat c + S i)%nat with (Z.to_nat (c + 1) + i)%nat by lia.
      apply IH; [lia | done | done].
  - destruct (middleware_trigger ip t store c t0 0 H) as (Hr & _ & Hs); [lia..|].
    assert (Hb : Forall (λ t', t' - t0 ≤ windowMs ∧ t' < t + blockDuration) ts).
    { eapply Forall_impl; [exact Hrest|]. simpl. unfold windowMs, blockDuration. lia. }
    pose proof (requests_blocked ip t0 _ _ ts _ Hs Hb) as Hden.
    destruct (requests ip ts (store_after (rateLimitMiddleware ip t store)))
      as [os final]; simpl in *.
    unfold burst_outcome, maxRequests in *.
    destruct i as [|i]; simpl in Hi.
    + injection Hi as <-. repeat case_decide; (done || lia).
    + repeat case_decide; try lia.
      rewrite Forall_lookup in Hden. by apply (Hden i).
Qed.

(** X4.  A client without an entry sends any number of requests within
    [windowMs] after the first.  The first ten are allowed, the eleventh is
    answered with the fixed 429 message, and all later ones are denied with
    the 429 message that carries the remaining seconds. *)
Theorem burst_outcomes ip t0 ts (store : gmap string IpData) i o :
  store !! ip = None →
  Forall (λ t, t0 ≤ t ≤ t0 + windowMs) ts →
  fst (requests ip (t0 :: ts) store) !! i = Some o →
  burst_outcome i o.
Proof.
  intros Habs Hts Hi. simpl in Hi.
  destruct (middleware_first ip t0 store Habs) as [Ha Hs].
  pose proof (requests_in_window ip t0 ts _ 1 Hs) as Hrest.
  destruct (requests ip ts (store_after (rateLimitMiddleware ip t0 store)))
    as [os final]; simpl in *.
  destruct i as [|i]; simpl in Hi.
  - injection Hi as <-. unfold burst_outcome. case_decide; [done|lia].
  - apply (Hrest ltac:(unfold maxRequests; lia) Hts i o Hi).
Qed.

Lemma burst_outcomes_witness :
  (∅ : gmap string IpData) !! burst_client = None ∧
  Forall (λ t, 0 ≤ t ≤ 0 + windowMs) [5; 5; 7; 8; 9; 9; 9; 9; 9; 20; 60000] ∧
  fst (requests burst_client (0 :: [5; 5; 7; 8; 9; 9; 9; 9; 9; 20; 60000]) ∅)
    !! 11%nat
    = Some (mkOutcome (<[burst_client := mkIpData 11 0 true 300020]> ∅)
                      (Some (TooManyRetryIn 241)) false) ∧
  burst_outcome 11
    (mkOutcome (<[burst_client := mkIpData 11 0 true 300020]> ∅)
               (Some (TooManyRetryIn 241)) false).
Proof.
  assert (H0 : (∅ : gmap string IpData) !! burst_client = None) by reflexivity.
  assert (H1 : Forall (λ t, 0 ≤ t ≤ 0 + windowMs)
                 [5; 5; 7; 8; 9; 9; 9; 9; 9; 20; 60000]).
  { repeat constructor; unfold windowMs; lia. }
  assert (H2 : fst (requests burst_client
                      (0 :: [5; 5; 7; 8; 9; 9; 9; 9; 9; 20; 60000]) ∅) !! 11%nat
               = Some (mkOutcome (<[burst_client := mkIpData 11 0 true 300020]> ∅)
                                 (Some (TooManyRetryIn 241)) false))
    by (vm_compute; reflexivity).
  split; [exact H0|]. split; [exact H1|]. split; [exact H2|].
  exact (burst_outcomes burst_client 0 _ ∅ 11 _ H0 H1 H2).
Defined.

(** X5.  The windows are fixed, not sliding: ten requests in one window and
    ten more in the window that the first request after it opens are all
    allowed, however close to the boundary the twenty are. *)
Theorem boundary_burst ip t0 ts1 t1 ts2 (store : gmap string IpData) :
  store !! ip = None →
  length ts1 = 9%nat → Forall (λ t, t - t0 ≤ windowMs) ts1 →
  t1 - t0 > windowMs →
  length ts2 = 9%nat → Forall (λ t, t - t1 ≤ windowMs) ts2 →
  Forall allowed (fst (requests ip ((t0 :: ts1) ++ (t1 :: ts2)) store)) ∧
  length (fst (requests ip ((t0 :: ts1) ++ (t1 :: ts2)) store)) = 20%nat.
Proof.
  intros Habs Hl1 Hw1 Hgt Hl2 Hw2.
  rewrite requests_app. cbn [fst].
  (* the first window *)
  assert (H1 : Forall allowed (fst (requests ip (t0 :: ts1) store)) ∧
               length (fst (requests ip (t0 :: ts1) store)) = 10%nat ∧
               snd (requests ip (t0 :: ts1) store) !! ip
                 = Some (mkIpData 10 t0 false 0)).
  { simpl. destruct (middleware_first ip t0 store Habs) as [Ha Hs].
    destruct (requests_counting ip t0 0 ts1 _ 1 Hs Hw1) as (Hall & Hl & Hfin).
    { rewrite Hl1. unfold maxRequests. lia. }
    rewrite Hl1 in Hfin, Hl.
    destruct (requests ip ts1 (store_after (rateLimitMiddleware ip t0 store)))
      as [os final]; simpl in *.
    split; [by constructor|]. split; [by rewrite Hl | exact Hfin]. }
  destruct H1 as (Ha1 & Hlen1 & Hs1).
  set (s1 := snd (requests ip (t0 :: ts1) store)) in *.
  (* the second window *)
  assert (H2 : Forall allowed (fst (requests ip (t1 :: ts2) s1)) ∧
               length (fst (requests ip (t1 :: ts2) s1)) = 10%nat).
  { simpl. destruct (middleware_stale ip t1 s1 _ Hs1 Hgt) as [Ha Hs].
    destruct (requests_counting ip t1 0 ts2 _ 1 Hs Hw2) as (Hall & Hl & _).
    { rewrite Hl2. unfold maxRequests. lia. }
    rewrite Hl2 in Hl.
    destruct (requests ip ts2 (store_after (rateLimitMiddleware ip t1 s1)))
      as [os final]; simpl in *.
    split; [by constructor | by rewrite Hl]. }
  destruct H2 as (Ha2 & Hlen2).
  split.
  - apply Forall_app. by split.
  - rewrite length_app, Hlen1, Hlen2. reflexivity.
Qed.

Lemma boundary_burst_witness :
  (∅ : gmap string IpData) !! burst_client = None ∧
  length (replicate 9 60000) = 9%nat ∧
  Forall (λ t, t - 0 ≤ windowMs) (replicate 9 60000) ∧
  60001 - 0 > windowMs ∧
  length (replicate 9 60001) = 9%nat ∧
  Forall (λ t, t - 60001 ≤ windowMs) (replicate 9 60001) ∧
  Forall allowed
    (fst (requests burst_client
            ((0 :: replicate 9 60000) ++ (60001 :: replicate 9 60001)) ∅)).
Proof.
  assert (H0 : (∅ : gmap string IpData) !! burst_client = None) by reflexivity.
  assert (H1 : length (replicate 9 60000) = 9%nat) by reflexivity.
  assert (H2 : Forall (λ t, t - 0 ≤ windowMs) (replicate 9 60000)).
  { repeat constructor; unfold windowMs; lia. }
  assert (H3 : 60001 - 0 > windowMs) by reflexivity.
  assert (H4 : length (replicate 9 60001) = 9%nat) by reflexivity.
  assert (H5 : Forall (λ t, t - 60001 ≤ windowMs) (replicate 9 60001)).
  { repeat constructor; unfold windowMs; lia. }
  pose proof (boundary_burst burst_client 0 _ 60001 _ ∅ H0 H1 H2 H3 H4 H5) as [Ha _].
  split; [exact H0|]. split; [exact H1|]. split; [exact H2|].
  split; [exact H3|]. split; [exact H4|]. split; [exact H5 | exact Ha].
Defined.

(** X6.  A request is denied, that is not passed on, exactly when the
    client has an entry whose window is still open, that is blocked, and
    whose block has not ended.  The store is then only purged: the request
    is not counted. *)
Theorem denied_iff_blocked ip now (store : gmap string IpData) :
  (denied (rateLimitMiddleware ip now store) ↔
   ∃ d, store !! ip = Some d ∧ now - resetTime d ≤ windowMs ∧
        blocked d = true ∧ now < blockedUntil d) ∧
  (denied (rateLimitMiddleware ip now store) →
   store_after (rateLimitMiddleware ip now store) = cleanupOldEntries now store).
Proof.
  unfold denied, rateLimitMiddleware. rewrite cleanupOldEntries_lookup.
  destruct (store !! ip) as [d|] eqn:Hd.
  - unfold stale. destruct (Z.gtb_spec (now - resetTime d) windowMs) as [Hst|Hst].
    + destruct (updateRequestCounter ip now (cleanupOldEntries now store)).
      simpl. split; [|done]. split; [done|]. intros (d' & [= <-] & ? & _). lia.
    + destruct (blocked d) eqn:Hb; simpl.
      * destruct (Z.ltb_spec now (blockedUntil d)); simpl.
        -- split; [|done]. split; [eauto 10|done].
        -- destruct (updateRequestCounter ip now _). simpl.
           split; [|done]. split; [done|]. intros (d' & [= <-] & _ & _ & ?). lia.
      * destruct (updateRequestCounter ip now _). simpl.
        split; [|done]. split; [done|]. intros (d' & [= <-] & _ & ? & _). congruence.
  - destruct (updateRequestCounter ip now (cleanupOldEntries now store)).
    simpl. split; [|done]. split; [done|]. by intros (d' & ? & _).
Qed.

Lemma denied_iff_blocked_witness :
  denied (rateLimitMiddleware burst_client 11 (store_after eleventh)) ∧
  store_after (rateLimitMiddleware burst_client 11 (store_after eleventh))
    = cleanupOldEntries 11 (store_after eleventh).
Proof.
  assert (H : denied (rateLimitMiddleware burst_client 11 (store_after eleventh)))
    by reflexivity.
  split; [exact H|].
  exact (proj2 (denied_iff_blocked burst_client 11 (store_after eleventh)) H).
Defined.

(** X7.  The number of seconds that a denied request is told to wait is the
    time left of the block rounded up to whole seconds: it is at least 1
    and less than a second more than the time left. *)
Theorem reported_wait_rounds_up ip now (store : gmap string IpData) s :
  reported_wait (rateLimitMiddleware ip now store) = Some s →
  ∃ d, store !! ip = Some d ∧ blocked d = true ∧
       1 ≤ s ∧ 1000 * (s - 1) < blockedUntil d - now ≤ 1000 * s.
Proof.
  assert (Hu : ∀ st, match snd (updateRequestCounter ip now st) with
                     | Some (TooManyRetryIn _) => False
                     | _ => True
                     end).
  { intros st. unfold updateRequestCounter.
    destruct (st !! ip) as [d|]; simpl; [|done].
    by destruct (count d + 1 >? maxRequests). }
  unfold reported_wait, rateLimitMiddleware. rewrite cleanupOldEntries_lookup.
  destruct (store !! ip) as [d|] eqn:Hd.
  - destruct (stale now d).
    + specialize (Hu (cleanupOldEntries now store)).
      destruct (updateRequestCounter ip now _) as [s3 [[]|]]; simpl in *; done.
    + destruct (blocked d) eqn:Hb; simpl.
      * destruct (Z.ltb_spec now (blockedUntil d)); simpl.
        -- intros [= <-]. exists d. split; [done|]. split; [done|].
           unfold ceil_div_1000.
           pose proof (Z.div_mod (- (blockedUntil d - now)) 1000 ltac:(lia)).
           pose proof (Z.mod_pos_bound (- (blockedUntil d - now)) 1000 ltac:(lia)).
           lia.
        -- destruct (now >=? blockedUntil d);
             match goal with |- context [updateRequestCounter ip now ?st] =>
               specialize (Hu st);
               destruct (updateRequestCounter ip now st) as [s3 [[]|]]
             end; simpl in *; done.
      * specialize (Hu (cleanupOldEntries now store)).
        destruct (updateRequestCounter ip now _) as [s3 [[]|]]; simpl in *; done.
  - specialize (Hu (cleanupOldEntries now store)).
    destruct (updateRequestCounter ip now _) as [s3 [[]|]]; simpl in *; done.
Qed.

Lemma reported_wait_rounds_up_witness :
  reported_wait (rateLimitMiddleware burst_client 11 (store_after eleventh))
    = Some 300 ∧
  ∃ d, store_after eleventh !! burst_client = Some d ∧ blocked d = true ∧
       1 ≤ 300 ∧ 1000 * (300 - 1) < blockedUntil d - 11 ≤ 1000 * 300.
Proof.
  assert (H : reported_wait (rateLimitMiddleware burst_client 11 (store_after eleventh))
              = Some 300) by reflexivity.
  split; [exact H|].
  exact (reported_wait_rounds_up burst_client 11 (store_after eleventh) 300 H).
Defined.

(** X8.  The loop of [cleanupOldEntries], which deletes from the map that it
    iterates over, is the filter that keeps the entries whose window began
    at most [windowMs] ago.  It only removes entries, and running it again
    at the same time changes nothing. *)
Theorem cleanupOldEntries_is_filter now (store : gmap string IpData) :
  cleanupOldEntries now store
    = filter (λ e, now - resetTime e.2 ≤ windowMs) store ∧
  cleanupOldEntries now store ⊆ store ∧
  cleanupOldEntries now (cleanupOldEntries now store) = cleanupOldEntries now store.
Proof.
  assert (Hf : ∀ m : gmap string IpData,
            cleanupOldEntries now m = filter (λ e, now - resetTime e.2 ≤ windowMs) m).
  { intros m. apply map_eq. intros ip.
    rewrite cleanupOldEntries_lookup, map_lookup_filter.
    destruct (m !! ip) as [d|]; simpl; [|done]. unfold stale.
    destruct (Z.gtb_spec (now - resetTime d) windowMs);
      case_guard; simpl in *; (done || lia). }
  split; [apply Hf|]. split.
  - rewrite Hf. apply map_filter_subseteq.
  - rewrite !Hf. apply map_eq. intros ip.
    rewrite !map_lookup_filter.
    destruct (store !! ip) as [d|]; simpl; [|done].
    case_guard; simpl; [|done]. by rewrite option_guard_True.
Qed.

End RateLimitProps.

(** ** More about the chat routes *)

Module ChatProps.
Import Chat ChatFacts.

(** X9.  [validateSelectedModel] only ever answers one of the three model
    names of its list: a listed name is kept, anything else, string or not,
    becomes the default model. *)
Theorem selected_model_is_listed (model : JsValue) :
  validateSelectedModel model ∈ validModels ∧
  (∀ s, model = JString s → s ∈ validModels → validateSelectedModel model = s) ∧
  (∀ s, model = JString s → s ∉ validModels → validateSelectedModel model = GEMINI_MODEL) ∧
  ((∀ s, model ≠ JString s) → validateSelectedModel model = GEMINI_MODEL).
Proof.
  assert (Hex : ∀ s, existsb (String.eqb s) validModels = true ↔ s ∈ validModels).
  { intros s. rewrite existsb_exists. split.
    - intros (x & Hin & Heq). apply String.eqb_eq in Heq as ->.
      by apply list_elem_of_In.
    - intros Hin. exists s. split; [by apply list_elem_of_In | apply String.eqb_refl]. }
  assert (Hdef : GEMINI_MODEL ∈ validModels) by (apply Hex; reflexivity).
  repeat split.
  - destruct model as [| | | |s| |]; unfold validateSelectedModel; try done.
    destruct (existsb (String.eqb s) validModels) eqn:He;
      [exact (proj1 (Hex s) He) | done].
  - intros s -> Hin. unfold validateSelectedModel. by rewrite (proj2 (Hex s) Hin).
  - intros s -> Hnin. unfold validateSelectedModel.
    destruct (existsb (String.eqb s) validModels) eqn:He; [|done].
    destruct (Hnin (proj1 (Hex s) He)).
  - intros Hns. destruct model as [| | | |s| |]; unfold validateSelectedModel;
      try done.
    by destruct (Hns s).
Qed.

Lemma selected_model_is_listed_witness :
  "gemini-1.5-pro" ∈ validModels ∧
  validateSelectedModel (JString "gemini-1.5-pro") = "gemini-1.5-pro" ∧
  ("gpt-4" ∉ validModels) ∧
  validateSelectedModel (JString "gpt-4") = GEMINI_MODEL ∧
  validateSelectedModel JUndefined = GEMINI_MODEL.
Proof.
  assert (H1 : "gemini-1.5-pro" ∈ validModels) by (unfold validModels; set_solver).
  assert (H2 : "gpt-4" ∉ validModels).
  { unfold validModels. rewrite !elem_of_cons, elem_of_nil.
    intros [?|[?|[?|[]]]]; discriminate. }
  destruct (selected_model_is_listed (JString "gemini-1.5-pro")) as (_ & Hk & _).
  destruct (selected_model_is_listed (JString "gpt-4")) as (_ & _ & Hd & _).
  destruct (selected_model_is_listed JUndefined) as (_ & _ & _ & Hu).
  split; [exact H1|]. split; [exact (Hk _ eq_refl H1)|].
  split; [exact H2|]. split; [exact (Hd _ eq_refl H2)|].
  apply Hu. intros s. discriminate.
Defined.

(** X10.  [extractResponseText] never answers [undefined] or [null].  From
    a response in the shape of the SDK, with or without a [response]
    wrapper, it takes the text of the first part of the first candidate,
    also when that text is the empty string; without candidates it answers
    the fixed apology. *)
Theorem response_text_extracted (resp text : JsValue) parts candidates :
  nullish (extractResponseText resp) = false ∧
  (nullish text = false →
     extractResponseText (sdk_response text parts candidates) = text ∧
     extractResponseText (wrapped_response text parts candidates) = text) ∧
  extractResponseText (sdk_response (JString "") parts candidates) = JString "" ∧
  extractResponseText (JObject [("candidates", JArray [])]) = JString FALLBACK_TEXT ∧
  extractResponseText JUndefined = JString FALLBACK_TEXT.
Proof.
  split; [|split; [|by repeat split]].
  - assert (Hc : ∀ a b, nullish b = false → nullish (js_coalesce a b) = false).
    { intros a b Hb. unfold js_coalesce. by destruct (nullish a) eqn:Ha. }
    unfold extractResponseText. by repeat apply Hc.
  - intros Ht. unfold extractResponseText, js_coalesce, sdk_response,
      wrapped_response, candidate_with. simpl. by rewrite Ht.
Qed.

Lemma response_text_extracted_witness :
  nullish (JString "Halo!") = false ∧
  extractResponseText (sdk_response (JString "Halo!") [] []) = JString "Halo!" ∧
  extractResponseText (wrapped_response (JString "Halo!") [] []) = JString "Halo!".
Proof.
  assert (H : nullish (JString "Halo!") = false) by reflexivity.
  destruct (response_text_extracted JNull (JString "Halo!") [] []) as (_ & Ht & _).
  split; [exact H | exact (Ht H)].
Defined.

(** *** Recording and reading back *)

Lemma most_recent_most_recent {A} (n m : nat) (l : list A) :
  (n ≤ m)%nat → most_recent n (most_recent m l) = most_recent n l.
Proof.
  intros Hnm. unfold most_recent. rewrite length_drop, drop_drop. f_equal. lia.
Qed.

Lemma most_recent_snoc {A} (n : nat) (l k : list A) :
  (length k ≤ n)%nat →
  most_recent n (l ++ k) = most_recent (n - length k) l ++ k.
Proof.
  intros Hk. unfold most_recent. rewrite length_app, drop_app.
  replace (length l + length k - n - length l)%nat with 0%nat by lia.
  rewrite drop_0. f_equal. f_equal. lia.
Qed.

Lemma joinLines_app (a b : list string) :
  joinLines (a ++ b) = joinLines a +:+ joinLines b.
Proof.
  induction a as [|x a IH]; [done|].
  simpl. by rewrite IH, string_app_assoc.
Qed.

(** The store under the session of the request after the two
    [addToConversationHistory] of [handleChatRequest]. *)
Lemma exchange_lookup tkUser tkBot sid msg reply (mem : gmap string Conversation) :
  addToConversationHistory tkBot sid "assistant" reply
    (addToConversationHistory tkUser sid "user" msg mem) !! sid
  = Some (mkConversation
            (most_recent 20 (stored sid mem ++ exchange tkUser tkBot msg reply))
            (t_activity tkBot)).
Proof.
  rewrite addToConversationHistory_lookup, addToConversationHistory_stored.
  rewrite most_recent_app, <- app_assoc. reflexivity.
Qed.

Lemma chatRecord_lookup tkUser tkBot cleanup now req msg reply
    (mem : gmap string Conversation) :
  (cleanup = true → now - t_activity tkBot ≤ MEMORY_CLEANUP_INTERVAL) →
  chatRecord tkUser tkBot cleanup now req msg reply mem !! generateSessionId req
  = Some (mkConversation
            (most_recent 20 (stored (generateSessionId req) mem
                             ++ exchange tkUser tkBot msg reply))
            (t_activity tkBot)).
Proof.
  intros Hc. unfold chatRecord.
  pose proof (exchange_lookup tkUser tkBot (generateSessionId req) msg reply mem) as He.
  destruct cleanup; [|exact He].
  rewrite cleanupOldConversations_lookup, He. simpl.
  destruct (Z.ltb_spec (t_activity tkBot) (now - MEMORY_CLEANUP_INTERVAL));
    [specialize (Hc eq_refl); lia | done].
Qed.

(** X11.  After a chat request that the model has answered, the session of
    the request holds the most recent twenty of its earlier turns followed
    by the message of the user and the answer, in this order, and its
    [lastActivity] is the time of the answer.  This needs the cleanup that
    may run at the end not to find the session idle, which holds when its
    clock reading is at most 30 minutes after the answer was recorded. *)
Theorem exchange_recorded tkUser tkBot cleanup now req msg reply
    (mem : gmap string Conversation) :
  (cleanup = true → now - t_activity tkBot ≤ MEMORY_CLEANUP_INTERVAL) →
  ∃ conv,
    chatRecord tkUser tkBot cleanup now req msg reply mem !! generateSessionId req
      = Some conv ∧
    messages conv
      = most_recent 20 (stored (generateSessionId req) mem
                        ++ exchange tkUser tkBot msg reply) ∧
    exchange tkUser tkBot msg reply `suffix_of` messages conv ∧
    lastActivity conv = t_activity tkBot.
Proof.
  intros Hc. eexists. split; [by apply chatRecord_lookup|]. simpl.
  split; [done|]. split; [|done].
  rewrite most_recent_snoc by (simpl; lia). by apply suffix_app_r.
Qed.

Lemma exchange_recorded_witness :
  (true = true → 7 - 6 ≤ MEMORY_CLEANUP_INTERVAL) ∧
  chatRecord (mkTicks 1 2 3) (mkTicks 4 5 6) true 7 browser
    "Apa itu Borobudur?" "Borobudur adalah candi Buddha..." ∅
    !! generateSessionId browser
  = Some (mkConversation
            [mkMessage "user" "Apa itu Borobudur?" 2;
             mkMessage "assistant" "Borobudur adalah candi Buddha..." 5] 6).
Proof.
  assert (H : true = true → 7 - 6 ≤ MEMORY_CLEANUP_INTERVAL)
    by (intros _; vm_compute; discriminate).
  split; [exact H|].
  destruct (exchange_recorded (mkTicks 1 2 3) (mkTicks 4 5 6) true 7 browser
              "Apa itu Borobudur?" "Borobudur adalah candi Buddha..." ∅ H)
    as (conv & Hl & Hm & _ & Ha).
  rewrite Hl. f_equal. destruct conv as [ms la]. simpl in *. by rewrite Hm, Ha.
Defined.

(** X12.  The context built for the next request of the session ends with
    the exchange just recorded: the line of the user, the line of the
    assistant, then the prompt for the new question. *)
Theorem next_context_ends_with_exchange tkUser tkBot cleanup now now' req msg reply
    (mem : gmap string Conversation) :
  (cleanup = true → now - t_activity tkBot ≤ MEMORY_CLEANUP_INTERVAL) →
  ∃ before,
    snd (chatContext now' req
           (chatRecord tkUser tkBot cleanup now req msg reply mem))
    = before +:+ ("Pengguna: " +:+ msg +:+ LF)
             +:+ ("Sahabat Nusantara: " +:+ reply +:+ LF)
             +:+ promptMarker.
Proof.
  intros Hc.
  pose proof (chatRecord_lookup tkUser tkBot cleanup now req msg reply mem Hc) as He.
  unfold chatContext, getConversationHistory. rewrite He. simpl.
  rewrite buildConversationContext_transcript.
  set (old := stored (generateSessionId req) mem).
  assert (Hrec : most_recent 8 (most_recent 20 (old ++ exchange tkUser tkBot msg reply))
                 = most_recent 6 old ++ exchange tkUser tkBot msg reply).
  { rewrite most_recent_most_recent by lia.
    by rewrite most_recent_snoc by (simpl; lia). }
  unfold transcript. rewrite Hrec.
  destruct (most_recent 20 (old ++ exchange tkUser tkBot msg reply)) as [|m ms] eqn:Hm.
  { apply (f_equal length) in Hm. rewrite most_recent_length, length_app in Hm.
    change (length (exchange tkUser tkBot msg reply)) with 2%nat in Hm.
    change (length (@nil Message)) with 0%nat in Hm. lia. }
  exists (contextHeader +:+ joinLines (renderTurn <$> most_recent 6 old)).
  rewrite fmap_app, joinLines_app.
  change (joinLines (renderTurn <$> exchange tkUser tkBot msg reply))
    with (("Pengguna: " +:+ msg +:+ LF)
          +:+ ("Sahabat Nusantara: " +:+ reply +:+ LF) +:+ "").
  rewrite string_app_empty_r, !string_app_assoc. reflexivity.
Qed.

Lemma next_context_ends_with_exchange_witness :
  (false = true → 0 - 6 ≤ MEMORY_CLEANUP_INTERVAL) ∧
  ∃ before,
    snd (chatContext 9 browser
           (chatRecord (mkTicks 1 2 3) (mkTicks 4 5 6) false 0 browser
              "Apa itu Borobudur?" "Borobudur adalah candi Buddha..." ∅))
    = before +:+ ("Pengguna: " +:+ "Apa itu Borobudur?" +:+ LF)
             +:+ ("Sahabat Nusantara: " +:+ "Borobudur adalah candi Buddha..." +:+ LF)
             +:+ promptMarker.
Proof.
  assert (H : false = true → 0 - 6 ≤ MEMORY_CLEANUP_INTERVAL) by discriminate.
  split; [exact H|].
  exact (next_context_ends_with_exchange (mkTicks 1 2 3) (mkTicks 4 5 6) false 0 9
           browser "Apa itu Borobudur?" "Borobudur adalah candi Buddha..." ∅ H).
Defined.

(** X13.  The handlers touch only the session of their request.  For any
    other session id, building the context and clearing change nothing, and
    recording an exchange changes nothing but what the cleanup of old
    conversations removes when it runs. *)
Theorem other_sessions_untouched tkUser tkBot cleanup now req msg reply sid
    (mem : gmap string Conversation) :
  generateSessionId req ≠ sid →
  fst (chatContext now req mem) !! sid = mem !! sid ∧
  fst (handleClearConversation req mem) !! sid = mem !! sid ∧
  chatRecord tkUser tkBot cleanup now req msg reply mem !! sid
    = (if cleanup then cleanupOldConversations now mem else mem) !! sid.
Proof.
  intros Hne. split; [|split].
  - unfold chatContext.
    pose proof (getConversationHistory_other now _ _ mem Hne) as Ho.
    by destruct (getConversationHistory now (generateSessionId req) mem).
  - unfold handleClearConversation. simpl.
    destruct (mem !! generateSessionId req); [by rewrite lookup_delete_ne | done].
  - unfold chatRecord.
    assert (Hadd : addToConversationHistory tkBot (generateSessionId req) "assistant" reply
              (addToConversationHistory tkUser (generateSessionId req) "user" msg mem)
              !! sid = mem !! sid).
    { by rewrite !addToConversationHistory_other. }
    destruct cleanup; [|exact Hadd].
    by rewrite !cleanupOldConversations_lookup, Hadd.
Qed.

Lemma other_sessions_untouched_witness :
  let mem : gmap string Conversation :=
    {[ generateSessionId office_pc := mkConversation [] 5 ]} in
  generateSessionId browser ≠ generateSessionId office_pc ∧
  chatRecord (mkTicks 1 2 3) (mkTicks 4 5 6) false 0 browser "Halo" "Hai" mem
    !! generateSessionId office_pc = Some (mkConversation [] 5).
Proof.
  intros mem.
  assert (Hne : generateSessionId browser ≠ generateSessionId office_pc)
    by (vm_compute; discriminate).
  split; [exact Hne|].
  destruct (other_sessions_untouched (mkTicks 1 2 3) (mkTicks 4 5 6) false 0
              browser "Halo" "Hai" _ mem Hne) as (_ & _ & Hr).
  rewrite Hr. reflexivity.
Defined.

(** X14.  Clearing forgets the conversation: afterwards the session has no
    entry, the context built for its next request is empty, and the first
    turn recorded starts a conversation of that one turn. *)
Theorem clear_forgets req now tk r c (mem : gmap string Conversation) :
  let cleared := fst (handleClearConversation req mem) in
  cleared !! generateSessionId req = None ∧
  snd (chatContext now req cleared) = "" ∧
  stored (generateSessionId req)
    (addToConversationHistory tk (generateSessionId req) r c cleared)
  = [mkMessage r c (t_push tk)].
Proof.
  intros cleared.
  assert (Hnone : cleared !! generateSessionId req = None).
  { unfold cleared, handleClearConversation. simpl.
    destruct (mem !! generateSessionId req) eqn:H; [apply lookup_delete_eq | done]. }
  clearbody cleared. split; [done|]. split.
  - unfold chatContext, getConversationHistory. by rewrite Hnone.
  - rewrite addToConversationHistory_stored. unfold stored. by rewrite Hnone.
Qed.

(** X15.  The loop of [cleanupOldConversations] is the filter that keeps
    the sessions whose last activity is not more than
    [MEMORY_CLEANUP_INTERVAL] before [now].  It only removes sessions, and
    running it again at the same time changes nothing. *)
Theorem cleanupOldConversations_is_filter now (mem : gmap string Conversation) :
  cleanupOldConversations now mem
    = filter (λ e, now - lastActivity e.2 ≤ MEMORY_CLEANUP_INTERVAL) mem ∧
  cleanupOldConversations now mem ⊆ mem ∧
  cleanupOldConversations now (cleanupOldConversations now mem)
    = cleanupOldConversations now mem.
Proof.
  assert (Hf : ∀ m : gmap string Conversation,
            cleanupOldConversations now m
            = filter (λ e, now - lastActivity e.2 ≤ MEMORY_CLEANUP_INTERVAL) m).
  { intros m. apply map_eq. intros sid.
    rewrite cleanupOldConversations_lookup, map_lookup_filter.
    destruct (m !! sid) as [conv|]; simpl; [|done].
    destruct (Z.ltb_spec (lastActivity conv) (now - MEMORY_CLEANUP_INTERVAL));
      case_guard; simpl in *; (done || lia). }
  split; [apply Hf|]. split.
  - rewrite Hf. apply map_filter_subseteq.
  - rewrite !Hf. apply map_eq. intros sid.
    rewrite !map_lookup_filter.
    destruct (mem !! sid) as [conv|]; simpl; [|done].
    case_guard; simpl; [|done]. by rewrite option_guard_True.
Qed.

(** *** The session id *)

Lemma string_ind3 (P : string → Prop) :
  P "" →
  (∀ a, P (String a "")) →
  (∀ a b, P (String a (String b ""))) →
  (∀ a b c rest, P rest → P (String a (String b (String c rest)))) →
  ∀ s, P s.
Proof.
  intros H0 H1 H2 H3 s.
  cut (P s ∧ (∀ a, P (String a s)) ∧ (∀ a b, P (String a (String b s)))).
  { by intros [? _]. }
  induction s as [|x s (IH0 & IH1 & IH2)]; [by auto|].
  split; [apply IH1|]. split; [intros a; apply IH2|].
  intros a b. by apply H3.
Qed.

Lemma string_length_app (a b : string) :
  String.length (a +:+ b) = (String.length a + String.length b)%nat.
Proof.
  induction a as [|x a IH]; [done|].
  change (S (String.length (a +:+ b)) = S (String.length a + String.length b)).
  by rewrite IH.
Qed.

Lemma substring_0_length n :
  ∀ s, String.length (substring 0 n s) = Nat.min n (String.length s).
Proof.
  induction n as [|n IH]; intros [|c s]; simpl; try done.
  by rewrite IH.
Qed.

Lemma base64_length : ∀ buf,
  String.length (base64 buf) = (4 * ((String.length buf + 2) / 3))%nat.
Proof.
  apply string_ind3; try done.
  intros a b c rest IH.
  change (S (S (S (S (String.length (base64 rest)))))
          = (4 * ((S (S (S (String.length rest))) + 2) / 3))%nat).
  rewrite IH.
  replace (S (S (S (String.length rest))) + 2)%nat
    with (1 * 3 + (String.length rest + 2))%nat by lia.
  rewrite Nat.div_add_l by lia. lia.
Qed.

Lemma js_or_default_length a d :
  (1 ≤ String.length d)%nat → (1 ≤ String.length (js_or_default a d))%nat.
Proof.
  intros Hd. unfold js_or_default. destruct a as [s|]; [|done].
  destruct (String.eqb_spec s ""); [done|]. destruct s; [done|simpl; lia].
Qed.

(** X16.  A session id is never empty: it has 4 to 16 characters, and 16
    as soon as the identity string, which has at least three bytes, has
    twelve. *)
Theorem session_id_length (req : Request) :
  (3 ≤ String.length (identityString req))%nat ∧
  (4 ≤ String.length (generateSessionId req) ≤ 16)%nat ∧
  ((12 ≤ String.length (identityString req))%nat →
   String.length (generateSessionId req) = 16%nat).
Proof.
  assert (Hid : (3 ≤ String.length (identityString req))%nat).
  { unfold identityString. rewrite !string_length_app.
    pose proof (js_or_default_length
                  (js_or (req_ip req) (req_connection_remoteAddress req)) "unknown").
    pose proof (js_or_default_length (req_user_agent req) "unknown").
    simpl in *. lia. }
  assert (Hlen : String.length (generateSessionId req)
                 = (4 * ((Nat.min 12 (String.length (identityString req)) + 2) / 3))%nat).
  { unfold generateSessionId. rewrite (base64_prefix 4).
    by rewrite base64_length, substring_0_length. }
  split; [done|]. rewrite Hlen. split.
  - pose proof (Nat.div_mod_eq
                  (Nat.min 12 (String.length (identityString req)) + 2) 3) as Hdm.
    pose proof (Nat.mod_upper_bound
                  (Nat.min 12 (String.length (identityString req)) + 2) 3) as Hmod.
    lia.
  - intros H12. by rewrite Nat.min_l.
Qed.

Lemma session_id_length_witness :
  (12 ≤ String.length (identityString browser))%nat ∧
  String.length (generateSessionId browser) = 16%nat.
Proof.
  assert (H : (12 ≤ String.length (identityString browser))%nat)
    by (vm_compute; lia).
  split; [exact H|].
  exact (proj2 (proj2 (session_id_length browser)) H).
Defined.

Lemma all_bytes_complete (a : ascii) : a ∈ all_bytes.
Proof.
  unfold all_bytes. rewrite <- (ascii_nat_embedding a).
  apply list_elem_of_fmap_2, elem_of_seq.
  pose proof (nat_ascii_bounded a). lia.
Qed.

Lemma for_all_bytes (f : ascii → bool) :
  forallb f all_bytes = true → ∀ a, f a = true.
Proof.
  intros H a. rewrite forallb_forall in H.
  apply H, list_elem_of_In, all_bytes_complete.
Qed.

(** The facts about one, two or three bytes that the proof that the encoding
    can be read back needs, each checked for all the bytes concerned. *)
Lemma decode_one (a : ascii) :
  base64_decode (base64 (String a "")) = Some (String a "").
Proof.
  revert a.
  cut (∀ a, bool_decide (base64_decode (base64 (String a ""))
                         = Some (String a "")) = true).
  { intros H a. exact (bool_decide_eq_true_1 _ (H a)). }
  apply for_all_bytes. vm_cast_no_check (eq_refl true).
Qed.

Lemma all_sextets_complete (v : N) : (v < 64)%N → v ∈ all_sextets.
Proof.
  intros Hv. unfold all_sextets. rewrite <- (N2Nat.id v).
  apply list_elem_of_fmap_2, elem_of_seq. lia.
Qed.

Lemma for_all_sextets (f : N → bool) :
  forallb f all_sextets = true → ∀ v, (v < 64)%N → f v = true.
Proof.
  intros H v Hv. rewrite forallb_forall in H.
  by apply H, list_elem_of_In, all_sextets_complete.
Qed.

(** Every 6-bit value is read back from its character. *)
Lemma index_of_char (v : N) :
  (v < 64)%N → base64_index (base64_char v) = Some v.
Proof.
  revert v.
  cut (∀ v, (v < 64)%N →
            bool_decide (base64_index (base64_char v) = Some v) = true).
  { intros H v Hv. exact (bool_decide_eq_true_1 _ (H v Hv)). }
  apply for_all_sextets. vm_cast_no_check (eq_refl true).
Qed.

Lemma lor_sextets (v w : N) : (v < 64)%N → (w < 64)%N → (N.lor v w < 64)%N.
Proof.
  revert v w.
  cut (∀ v, (v < 64)%N →
            forallb (λ w, bool_decide (N.lor v w < 64)%N) all_sextets = true).
  { intros H v w Hv Hw.
    exact (bool_decide_eq_true_1 _ (for_all_sextets _ (H v Hv) w Hw)). }
  apply for_all_sextets. vm_cast_no_check (eq_refl true).
Qed.

Lemma byte_facts_hold (a : ascii) : byte_facts a.
Proof.
  revert a.
  cut (∀ a, bool_decide (byte_facts a) = true).
  { intros H a. exact (bool_decide_eq_true_1 _ (H a)). }
  apply for_all_bytes. vm_cast_no_check (eq_refl true).
Qed.

(** The bytes that the decoder makes of the 6-bit values of the encoder. *)
Lemma first_byte_back (a b : ascii) :
  byte_of (N.lor (N.shiftl (sextet1 (N_of_ascii a)) 2)
                 (N.shiftr (sextet2 (N_of_ascii a) (N_of_ascii b)) 4)) = a.
Proof.
  destruct (byte_facts_hold a) as (_ & (Ha & _) & _ & Hback & _).
  destruct (byte_facts_hold b) as (_ & (_ & Hb & _) & _).
  unfold sextet1, sextet2. cbv zeta in *.
  by rewrite N.shiftr_lor, Ha, Hb, N.lor_0_r.
Qed.

Lemma second_byte_back (a b : ascii) (low : N) :
  N.shiftr low 2 = N.land (N_of_ascii b) 15 →
  byte_of (N.lor (N.shiftl (sextet2 (N_of_ascii a) (N_of_ascii b)) 4)
                 (N.shiftr low 2)) = b.
Proof.
  intros Hlow.
  destruct (byte_facts_hold a) as (_ & _ & (Ha & _) & _).
  destruct (byte_facts_hold b) as (_ & _ & _ & _ & Hback & _).
  unfold sextet2. cbv zeta in *.
  rewrite Hlow, N.shiftl_lor, <- N.lor_assoc.
  unfold byte_of in *. by rewrite N.land_lor_distr_l, Ha, N.lor_0_l.
Qed.

Lemma third_byte_back (b c : ascii) :
  byte_of (N.lor (N.shiftl (sextet3 (N_of_ascii b) (N_of_ascii c)) 6)
                 (sextet4 (N_of_ascii c))) = c.
Proof.
  destruct (byte_facts_hold b) as (_ & _ & (_ & Hb) & _).
  destruct (byte_facts_hold c) as (_ & _ & _ & _ & _ & Hback).
  unfold sextet3, sextet4. cbv zeta in *.
  rewrite N.shiftl_lor, <- N.lor_assoc.
  unfold byte_of in *. by rewrite N.land_lor_distr_l, Hb, N.lor_0_l.
Qed.

Lemma sextets_small (a b : ascii) :
  (sextet1 (N_of_ascii a) < 64 ∧ sextet2 (N_of_ascii a) (N_of_ascii b) < 64 ∧
   sextet3 (N_of_ascii a) (N_of_ascii b) < 64 ∧ sextet4 (N_of_ascii a) < 64 ∧
   N.shiftl (N.land (N_of_ascii a) 3) 4 < 64 ∧
   N.shiftl (N.land (N_of_ascii a) 15) 2 < 64)%N.
Proof.
  destruct (byte_facts_hold a) as ((A1 & A2 & A3 & A4 & A5 & A6) & _).
  destruct (byte_facts_hold b) as ((B1 & B2 & B3 & B4 & B5 & B6) & _).
  unfold sextet1, sextet2, sextet3, sextet4. cbv zeta in *.
  repeat split; try done; by apply lor_sextets.
Qed.

(** The encoding can be read back, so it is injective. *)
Lemma base64_decode_encode : ∀ buf, base64_decode (base64 buf) = Some buf.
Proof.
  apply string_ind3; [done | apply decode_one | |].
  - intros a b.
    destruct (sextets_small a b) as (S1 & S2 & _).
    destruct (sextets_small b b) as (_ & _ & _ & _ & _ & S3).
    change (base64 (String a (String b "")))
      with (String (base64_char (sextet1 (N_of_ascii a)))
              (String (base64_char (sextet2 (N_of_ascii a) (N_of_ascii b)))
                 (String (base64_char (N.shiftl (N.land (N_of_ascii b) 15) 2)) "="))).
    cbn [base64_decode]. unfold quad_bytes.
    rewrite !index_of_char by done.
    change (base64_index "=") with (@None N). cbv zeta.
    rewrite first_byte_back, second_byte_back; [done|].
    by destruct (byte_facts_hold b) as (_ & (_ & _ & Hb & _) & _).
  - intros a b c rest IH.
    destruct (sextets_small a b) as (S1 & S2 & _).
    destruct (sextets_small b c) as (_ & _ & S3 & _).
    destruct (sextets_small c c) as (_ & _ & _ & S4 & _).
    change (base64 (String a (String b (String c rest))))
      with (String (base64_char (sextet1 (N_of_ascii a)))
              (String (base64_char (sextet2 (N_of_ascii a) (N_of_ascii b)))
                 (String (base64_char (sextet3 (N_of_ascii b) (N_of_ascii c)))
                    (String (base64_char (sextet4 (N_of_ascii c))) (base64 rest))))).
    cbn [base64_decode]. rewrite IH. unfold quad_bytes.
    rewrite !index_of_char by done. cbv zeta.
    rewrite first_byte_back, third_byte_back, second_byte_back; [done|].
    destruct (byte_facts_hold b) as (_ & (_ & _ & Hb & _) & _).
    destruct (byte_facts_hold c) as (_ & (_ & _ & _ & Hc) & _).
    unfold sextet3. cbv zeta in *. by rewrite N.shiftr_lor, Hb, Hc, N.lor_0_r.
Qed.

Lemma base64_inj (buf1 buf2 : string) : base64 buf1 = base64 buf2 → buf1 = buf2.
Proof.
  intros H. apply (f_equal base64_decode) in H.
  rewrite !base64_decode_encode in H. by injection H.
Qed.

(** X17.  Two requests get the same session id exactly when their identity
    strings agree on the first twelve bytes: nothing after the twelfth byte
    tells two clients apart, and nothing before it is lost. *)
Theorem same_session_iff_same_first_12_bytes (req1 req2 : Request) :
  generateSessionId req1 = generateSessionId req2 ↔
  substring 0 12 (identityString req1) = substring 0 12 (identityString req2).
Proof.
  unfold generateSessionId. rewrite !(base64_prefix 4).
  change (3 * 4)%nat with 12%nat.
  split; [apply base64_inj | by intros ->].
Qed.

End ChatProps.

(** ** Facts about the validation of the message *)

Module SecurityFacts.
Import Security.

Local Open Scope N_scope.

Example sanitize_examples :
  sanitize (lit "  <b>Halo</b> dunia  ") = lit "bHalo/b dunia" ∧
  sanitize (lit "klik JavaScript:alert(1)") = lit "klik alert(1)" ∧
  sanitize (lit "<img src=x onerror = alert(1)>") = lit "img src=x  alert(1)" ∧
  sanitize (lit "on =") = lit "on =" ∧
  sanitize (lit "javajavascript:script:alert(1)") = lit "javascript:alert(1)".
Proof. vm_compute. repeat split. Qed.

(** *** What each step keeps *)

Lemma shorter_refl s : shorter s s.
Proof. by split. Qed.

Lemma shorter_trans s1 s2 s3 : shorter s1 s2 → shorter s2 s3 → shorter s1 s3.
Proof. intros [L1 F1] [L2 F2]. split; [lia | auto]. Qed.

Lemma shorter_cons c s' s : shorter s' s → shorter s' (c :: s).
Proof.
  intros [L F]. split; [simpl; lia|].
  intros P HP. apply F. by inversion HP.
Qed.

Lemma shorter_skip c s' s : shorter s' s → shorter (c :: s') (c :: s).
Proof.
  intros [L F]. split; [simpl; lia|].
  intros P HP. inversion HP; subst. constructor; auto.
Qed.

Lemma drop_spaces_shorter s : shorter (drop_spaces s) s.
Proof.
  induction s as [|c s IH]; [apply shorter_refl|]. simpl.
  destruct (is_space c); [by apply shorter_cons | apply shorter_refl].
Qed.

Lemma reverse_shorter s : shorter (reverse s) s.
Proof.
  split; [by rewrite length_reverse|]. intros P. by rewrite Forall_reverse.
Qed.

Lemma trim_shorter s : shorter (trim s) s.
Proof.
  unfold trim.
  eapply shorter_trans; [apply reverse_shorter|].
  eapply shorter_trans; [apply drop_spaces_shorter|].
  eapply shorter_trans; [apply reverse_shorter|].
  apply drop_spaces_shorter.
Qed.

Lemma remove_units_shorter class s : shorter (remove_units class s) s.
Proof.
  induction s as [|c s IH]; [apply shorter_refl|]. simpl.
  destruct (class c); [by apply shorter_cons | by apply shorter_skip].
Qed.

Lemma remove_matches_shorter match_at s :
  ∀ skip, shorter (remove_matches match_at skip s) s.
Proof.
  induction s as [|c s IH]; intros skip; [apply shorter_refl|]. simpl.
  destruct skip as [|k]; [|apply shorter_cons, IH].
  destruct (match_at (c :: s)) as [[|k]|];
    [apply shorter_skip, IH | apply shorter_cons, IH | apply shorter_skip, IH].
Qed.

Lemma remove_units_gone class s :
  Forall (λ c, class c = false) (remove_units class s).
Proof.
  induction s as [|c s IH]; [constructor|]. simpl.
  destruct (class c) eqn:Hc; [done | by constructor].
Qed.

Lemma remove_units_none class s :
  Forall (λ c, class c = false) s → remove_units class s = s.
Proof.
  induction 1 as [|c s Hc _ IH]; [done|]. simpl. by rewrite Hc, IH.
Qed.

Lemma remove_matches_none match_at s :
  (∀ t, t `suffix_of` s → match_at t = None) →
  remove_matches match_at 0 s = s.
Proof.
  induction s as [|c s IH]; intros Hnone; [done|]. simpl.
  rewrite (Hnone (c :: s)) by done. f_equal.
  apply IH. intros t Ht. apply Hnone. by apply suffix_cons_r.
Qed.

Lemma plain_classes c : plain c ↔ is_angle c = false ∧ is_nul c = false.
Proof.
  unfold plain, is_angle, is_nul.
  rewrite orb_false_iff, !N.eqb_neq. tauto.
Qed.

(** *** The properties *)

(** X18.  What [validateAndSanitizeMessage] accepts is a string of 1 to
    1000 code units, and what it hands on is not empty, not longer than
    the message, and free of [<], [>] and NUL. *)
Theorem valid_message_contract (userMessage : BodyValue) sanitized :
  validateAndSanitizeMessage userMessage = Valid sanitized →
  ∃ units,
    userMessage = BodyString units ∧
    (1 ≤ length units ≤ 1000)%nat ∧
    sanitized = sanitize units ∧
    (1 ≤ length sanitized ≤ length units)%nat ∧
    Forall plain sanitized.
Proof.
  unfold validateAndSanitizeMessage.
  destruct userMessage as [[|c units]|[]]; try done.
  destruct (Nat.ltb_spec 1000 (length (c :: units))) as [|Hlen]; [done|].
  destruct (sanitize (c :: units)) as [|x rest] eqn:Hs; [done|].
  intros [= <-]. exists (c :: units).
  split; [done|]. split; [simpl in *; lia|]. split; [done|].
  assert (Hshort : shorter (sanitize (c :: units)) (c :: units)).
  { unfold sanitize.
    eapply shorter_trans; [apply remove_units_shorter|].
    eapply shorter_trans; [apply remove_matches_shorter|].
    eapply shorter_trans; [apply remove_matches_shorter|].
    eapply shorter_trans; [apply remove_units_shorter | apply trim_shorter]. }
  rewrite Hs in Hshort. split; [destruct Hshort; simpl in *; lia|].
  rewrite <- Hs. unfold sanitize.
  set (step1 := remove_units is_angle (trim (c :: units))).
  set (step3 := remove_matches match_handler 0
                  (remove_matches match_javascript 0 step1)).
  assert (H1 : Forall (λ c, is_angle c = false) step3).
  { apply (shorter_trans _ _ _ (remove_matches_shorter _ _ _)
                               (remove_matches_shorter _ _ _)).
    apply remove_units_gone. }
  pose proof (remove_units_gone is_nul step3) as H2.
  destruct (remove_units_shorter is_nul step3) as [_ Hkeep].
  apply Hkeep in H1.
  assert (H12 : Forall (λ c, is_angle c = false ∧ is_nul c = false)
                  (remove_units is_nul step3)) by (by apply Forall_and).
  eapply Forall_impl; [exact H12|]. intros y Hy. by apply plain_classes.
Qed.

Lemma valid_message_contract_witness :
  validateAndSanitizeMessage (BodyString (lit "  <b>Halo</b> dunia  "))
    = Valid (lit "bHalo/b dunia") ∧
  ∃ units,
    BodyString (lit "  <b>Halo</b> dunia  ") = BodyString units ∧
    (1 ≤ length units ≤ 1000)%nat ∧
    lit "bHalo/b dunia" = sanitize units ∧
    (1 ≤ length (lit "bHalo/b dunia") ≤ length units)%nat ∧
    Forall plain (lit "bHalo/b dunia").
Proof.
  assert (H : validateAndSanitizeMessage (BodyString (lit "  <b>Halo</b> dunia  "))
              = Valid (lit "bHalo/b dunia")) by reflexivity.
  split; [exact H|].
  exact (valid_message_contract _ _ H).
Defined.




(** *** What the sanitation does not take away *)

Lemma nul_padded_head text : ∃ rest, nul_padded text = 0 :: rest.
Proof. destruct text; simpl; eauto. Qed.

Lemma nul_padded_last text : ∃ front, nul_padded text = front ++ [0].
Proof.
  induction text as [|c text [front IH]]; [by exists []|].
  exists (0 :: c :: front). simpl. by rewrite IH.
Qed.

Lemma nul_padded_length text :
  length (nul_padded text) = (2 * length text + 1)%nat.
Proof. induction text as [|c text IH]; simpl; [done | rewrite IH; lia]. Qed.

Lemma trim_nul_padded text : trim (nul_padded text) = nul_padded text.
Proof.
  unfold trim.
  destruct (nul_padded_head text) as [rest Hh].
  destruct (nul_padded_last text) as [front Hl].
  assert (H1 : drop_spaces (nul_padded text) = nul_padded text)
    by (by rewrite Hh).
  rewrite H1.
  assert (H2 : drop_spaces (reverse (nul_padded text)) = reverse (nul_padded text))
    by (by rewrite Hl, reverse_app).
  rewrite H2. apply reverse_involutive.
Qed.

Lemma remove_matches_keep match_at c s :
  match_at (c :: s) = None →
  remove_matches match_at 0 (c :: s) = c :: remove_matches match_at 0 s.
Proof. intros H. simpl. by rewrite H. Qed.

Lemma remove_matches_nul_padded match_at text :
  (∀ rest, match_at (0 :: rest) = None) →
  (∀ c rest, match_at (c :: 0 :: rest) = None) →
  remove_matches match_at 0 (nul_padded text) = nul_padded text.
Proof.
  intros H0 H1. induction text as [|c text IH].
  - change (nul_padded []) with [0]. by rewrite remove_matches_keep.
  - change (nul_padded (c :: text)) with (0 :: c :: nul_padded text).
    rewrite remove_matches_keep by apply H0.
    rewrite remove_matches_keep; [by rewrite IH|].
    destruct (nul_padded_head text) as [rest ->]. apply H1.
Qed.

Lemma match_javascript_nul :
  (∀ rest, match_javascript (0 :: rest) = None) ∧
  (∀ c rest, match_javascript (c :: 0 :: rest) = None).
Proof.
  unfold match_javascript.
  change (lit "javascript:") with [106; 97; 118; 97; 115; 99; 114; 105; 112; 116; 58].
  split; [done|]. intros c rest. cbn [prefix_ci].
  change (matches_ci 97 0) with false. by rewrite andb_false_r.
Qed.

Lemma match_handler_nul :
  (∀ rest, match_handler (0 :: rest) = None) ∧
  (∀ c rest, match_handler (c :: 0 :: rest) = None).
Proof.
  split.
  - by intros [|n rest].
  - intros c rest. unfold match_handler.
    change (matches_ci 110 0) with false. by rewrite andb_false_r.
Qed.

(** X20.  The removal of [javascript:] and of the event handlers promises
    nothing about what is handed on: every text of 1 to 499 units without
    [<], [>] and NUL is the sanitized form of some accepted message, namely
    of the text with a NUL before, between and behind its units.  The
    patterns are looked for before the NULs are removed. *)
Theorem sanitation_is_onto (text : list N) :
  Forall plain text →
  (1 ≤ length text ≤ 499)%nat →
  validateAndSanitizeMessage (BodyString (nul_padded text)) = Valid text.
Proof.
  intros Hplain Hlen.
  assert (Hs : sanitize (nul_padded text) = text).
  { unfold sanitize. rewrite trim_nul_padded.
    assert (Ha : remove_units is_angle (nul_padded text) = nul_padded text).
    { apply remove_units_none. clear Hlen.
      induction Hplain as [|c text Hc _ IH]; simpl; [by repeat constructor|].
      apply plain_classes in Hc as [Hc _]. by repeat constructor. }
    rewrite Ha.
    rewrite (remove_matches_nul_padded match_javascript)
      by apply match_javascript_nul.
    rewrite (remove_matches_nul_padded match_handler)
      by apply match_handler_nul.
    clear Ha Hlen. induction Hplain as [|c text Hc _ IH]; [done|].
    apply plain_classes in Hc as [_ Hc]. simpl. by rewrite Hc, IH. }
  unfold validateAndSanitizeMessage.
  destruct (nul_padded_head text) as [rest Hh]. rewrite Hh. rewrite <- Hh.
  destruct (Nat.ltb_spec 1000 (length (nul_padded text))) as [Hl|_].
  { rewrite nul_padded_length in Hl. lia. }
  rewrite Hs. destruct text; [simpl in Hlen; lia | done].
Qed.

Lemma sanitation_is_onto_witness :
  Forall plain (lit "javascript:alert(1)") ∧
  (1 ≤ length (lit "javascript:alert(1)") ≤ 499)%nat ∧
  validateAndSanitizeMessage (BodyString (nul_padded (lit "javascript:alert(1)")))
    = Valid (lit "javascript:alert(1)").
Proof.
  assert (H1 : Forall plain (lit "javascript:alert(1)")).
  { repeat constructor; discriminate. }
  assert (H2 : (1 ≤ length (lit "javascript:alert(1)") ≤ 499)%nat)
    by (vm_compute; lia).
  split; [exact H1|]. split; [exact H2|].
  exact (sanitation_is_onto _ H1 H2).
Defined.

End SecurityFacts.

(** ** Facts about the rate limiter of the browser *)

Module ClientRateLimitFacts.
Import ClientRateLimit.

Example five_per_minute :
  allowed_times [0; 10; 20; 30; 40; 50; 59999; 60000; 60009; 60010; 119999; 120000]
                (new (mkConfig (Some 5) (Some 60000)))
  = [0; 10; 20; 30; 40; 119999; 120000].
Proof. vm_compute. reflexivity. Qed.

(** The configuration does not change. *)
Lemma checkRateLimit_config now l :
  maxRequests (fst (checkRateLimit now l)) = maxRequests l ∧
  timeWindow (fst (checkRateLimit now l)) = timeWindow l.
Proof.
  unfold checkRateLimit.
  destruct (isBlocked l && (now <? blockUntil l)); [done|].
  destruct (isBlocked l && (now >=? blockUntil l));
    match goal with |- context [?a >=? ?b] => by destruct (a >=? b) end.
Qed.

Lemma filter_length_mono (P Q : Z → Prop)
    `{!∀ x, Decision (P x), !∀ x, Decision (Q x)} (l : list Z) :
  (∀ x, P x → Q x) → (length (filter P l) ≤ length (filter Q l))%nat.
Proof.
  intros HPQ. induction l as [|x l IH]; [done|].
  rewrite !filter_cons.
  destruct (decide (P x)) as [HP|HP].
  - rewrite decide_True by auto. simpl. lia.
  - destruct (decide (Q x)); simpl; lia.
Qed.

Lemma recent_tracks from now (hist : list Z) l :
  from ≤ now → tracks from hist l →
  ∀ later, now ≤ later →
    length (filter (λ x, later - x < timeWindow l)
              (filter (λ x, now - x < timeWindow l) (requests l)))
    = length (filter (λ x, later - x < timeWindow l) hist).
Proof.
  intros Hfrom (_ & Hcount & _) later Hlater.
  rewrite list_filter_filter_l by (intros x; lia).
  apply Hcount. lia.
Qed.

Lemma expired_tracks from now (hist : list Z) l :
  from ≤ now → tracks from hist l →
  isBlocked l = true → blockUntil l ≤ now →
  ∀ later, now ≤ later →
    filter (λ x, later - x < timeWindow l) hist = [].
Proof.
  intros Hfrom (_ & _ & Hblock) Hb Hu later Hlater.
  specialize (Hblock Hb).
  induction Hblock as [|a hist Ha _ IH]; [done|].
  rewrite filter_cons_False by lia. exact IH.
Qed.

(** [checkRateLimit], branch by branch. *)
Lemma checkRateLimit_cases now l :
  checkRateLimit now l =
  let recent := filter (λ x, now - x < timeWindow l) (requests l) in
  if isBlocked l then
    if now <? blockUntil l then
      (mkRateLimiter (maxRequests l) (timeWindow l) recent true (blockUntil l),
       DeniedFor (RateLimit.ceil_div_1000 (blockUntil l - now)))
    else if 0 >=? maxRequests l then
      (mkRateLimiter (maxRequests l) (timeWindow l) [] true (now + timeWindow l),
       DeniedOneMinute)
    else
      (mkRateLimiter (maxRequests l) (timeWindow l) [now] false (blockUntil l),
       Allowed)
  else if Z.of_nat (length recent) >=? maxRequests l then
    (mkRateLimiter (maxRequests l) (timeWindow l) recent true (now + timeWindow l),
     DeniedOneMinute)
  else
    (mkRateLimiter (maxRequests l) (timeWindow l) (recent ++ [now]) false
                   (blockUntil l),
     Allowed).
Proof.
  unfold checkRateLimit. destruct (isBlocked l); simpl; [|done].
  destruct (Z.ltb_spec now (blockUntil l)); simpl; [done|].
  by destruct (Z.geb_spec now (blockUntil l)); [|lia].
Qed.

Lemma allowed_within_limit times :
  ∀ from hist l,
  tracks from hist l →
  nondecreasing from times →
  each_within_limit (maxRequests l) (timeWindow l) hist →
  each_within_limit (maxRequests l) (timeWindow l)
    (reverse (allowed_times times l) ++ hist).
Proof.
  induction times as [|now times IH]; intros from hist l Htr Hnd Hok; [done|].
  destruct Hnd as [Hfrom Hnd].
  pose proof Htr as (Hle & Hcount & Hblock).
  assert (Hle' : Forall (λ a, a ≤ now) hist).
  { eapply Forall_impl; [exact Hle|]. simpl. lia. }
  pose proof (recent_tracks from now hist l Hfrom Htr) as Hrec.
  cbn [allowed_times]. rewrite checkRateLimit_cases. cbv zeta.
  set (recent := filter (λ x, now - x < timeWindow l) (requests l)) in *.
  destruct (isBlocked l) eqn:Hb.
  - destruct (Z.ltb_spec now (blockUntil l)) as [Hlt|Hge].
    + (* still blocked *)
      apply (IH now hist
               (mkRateLimiter (maxRequests l) (timeWindow l) recent true (blockUntil l)));
        [|done|done].
      split; [done|]. split; [exact Hrec|]. intros _. by apply Hblock.
    + (* the block is over *)
      pose proof (expired_tracks from now hist l Hfrom Htr Hb Hge) as Hexp.
      destruct (Z.geb_spec 0 (maxRequests l)) as [Hfull|Hroom].
      * apply (IH now hist
                 (mkRateLimiter (maxRequests l) (timeWindow l) [] true
                                (now + timeWindow l))); [|done|done].
        split; [done|]. split; simpl.
        -- intros later Hl. by rewrite Hexp.
        -- intros _. eapply Forall_impl; [exact Hle'|]. simpl. lia.
      * rewrite reverse_cons, <- app_assoc.
        apply (IH now (now :: hist)
                 (mkRateLimiter (maxRequests l) (timeWindow l) [now] false
                                (blockUntil l))); [|done|].
        -- split; [by constructor|]. split; [|done]. simpl.
           intros later Hl. rewrite !filter_cons, Hexp by done.
           by destruct (decide (later - now < timeWindow l)).
        -- simpl. split; [|done]. rewrite Hexp by done. simpl. lia.
  - (* not blocked *)
    destruct (Z.geb_spec (Z.of_nat (length recent)) (maxRequests l))
      as [Hfull|Hroom].
    + apply (IH now hist
               (mkRateLimiter (maxRequests l) (timeWindow l) recent true
                              (now + timeWindow l))); [|done|done].
      split; [done|]. split; [exact Hrec|]. simpl.
      intros _. eapply Forall_impl; [exact Hle'|]. simpl. lia.
    + rewrite reverse_cons, <- app_assoc.
      apply (IH now (now :: hist)
               (mkRateLimiter (maxRequests l) (timeWindow l) (recent ++ [now]) false
                              (blockUntil l))); [|done|].
      * split; [by constructor|]. split; [|done]. simpl.
        intros later Hl. rewrite filter_app, length_app, !filter_cons.
        rewrite Hrec by done. simpl.
        destruct (decide (later - now < timeWindow l)); simpl; lia.
      * simpl. split; [|done].
        rewrite <- (Hrec now) by lia.
        pose proof (length_filter (λ x, now - x < timeWindow l) recent). lia.
Qed.

Lemma window_count limit window (hist : list Z) t :
  each_within_limit limit window hist →
  Z.of_nat (length (filter (λ a, t - window < a ∧ a ≤ t) hist)) ≤ Z.max 0 limit.
Proof.
  induction hist as [|a older IH]; intros Hok; [simpl; lia|].
  destruct Hok as [Ha Hok]. rewrite filter_cons.
  destruct (decide (t - window < a ∧ a ≤ t)) as [Hin|Hout]; [|by apply IH].
  simpl length.
  assert (Hmono : (length (filter (λ x : Z, (t - window < x ∧ x ≤ t)%Z) older)
                   ≤ length (filter (λ x : Z, (a - x < window)%Z) older))%nat).
  { apply filter_length_mono. intros x [Hx1 Hx2]. lia. }
  lia.
Qed.

(** X21.  With a clock that does not go back, the messages that a new
    instance allows never number more than [maxRequests] in any stretch of
    [timeWindow] milliseconds. *)
Theorem sliding_window_limit config from times t :
  nondecreasing from times →
  let l := new config in
  Z.of_nat (length (filter (λ a, t - timeWindow l < a ∧ a ≤ t)
                      (allowed_times times l)))
  ≤ Z.max 0 (maxRequests l).
Proof.
  intros Hnd l.
  assert (Htr : tracks from [] l) by (by repeat split).
  pose proof (allowed_within_limit times from [] l Htr Hnd I) as Hok.
  rewrite app_nil_r in Hok.
  apply (window_count _ _ _ t) in Hok.
  by rewrite filter_reverse, length_reverse in Hok.
Qed.

Lemma sliding_window_limit_witness :
  nondecreasing 0 [0; 10; 20; 30; 40; 50; 59999; 60000; 60009; 60010; 119999; 120000] ∧
  Z.of_nat (length (filter (λ a, 120000 - 60000 < a ∧ a ≤ 120000)
     (allowed_times
        [0; 10; 20; 30; 40; 50; 59999; 60000; 60009; 60010; 119999; 120000]
        (new (mkConfig (Some 5) (Some 60000))))))
  ≤ Z.max 0 5.
Proof.
  assert (H : nondecreasing 0
                [0; 10; 20; 30; 40; 50; 59999; 60000; 60009; 60010; 119999; 120000]).
  { simpl. lia. }
  split; [exact H|].
  exact (sliding_window_limit (mkConfig (Some 5) (Some 60000)) 0 _ 120000 H).
Defined.

Lemma checkRateLimit_bounded now l :
  Z.of_nat (length (requests l)) ≤ Z.max 0 (maxRequests l) →
  Z.of_nat (length (requests (fst (checkRateLimit now l)))) ≤ Z.max 0 (maxRequests l).
Proof.
  intros Hb. rewrite checkRateLimit_cases. cbv zeta.
  pose proof (length_filter (λ x, now - x < timeWindow l) (requests l)) as Hf.
  destruct (isBlocked l).
  - destruct (now <? blockUntil l); simpl; [lia|].
    destruct (Z.geb_spec 0 (maxRequests l)); simpl; lia.
  - destruct (Z.geb_spec
      (Z.of_nat (length (filter (λ x, now - x < timeWindow l) (requests l))))
      (maxRequests l)); simpl; [lia|].
    rewrite length_app. simpl. lia.
Qed.

(** X22.  Whatever the times of the checks, a new instance never stores
    more than [maxRequests] times, so [getStatus] reports a count within
    the limit and, for a limit that is not negative, a remainder that makes
    up the difference. *)
Theorem status_within_limit config times :
  let status := getStatus (after_checks times (new config)) in
  status_maxRequests status = default 5 (config_maxRequests config) ∧
  0 ≤ requestCount status ≤ Z.max 0 (status_maxRequests status) ∧
  0 ≤ remainingRequests status ∧
  (0 ≤ status_maxRequests status →
   requestCount status + remainingRequests status = status_maxRequests status).
Proof.
  assert (H : ∀ l, Z.of_nat (length (requests l)) ≤ Z.max 0 (maxRequests l) →
              maxRequests (after_checks times l) = maxRequests l ∧
              Z.of_nat (length (requests (after_checks times l)))
                ≤ Z.max 0 (maxRequests l)).
  { induction times as [|now times IH]; intros l Hb; [done|]. simpl.
    destruct (checkRateLimit_config now l) as [Hmax _].
    destruct (IH (fst (checkRateLimit now l))) as [IH1 IH2].
    - rewrite Hmax. by apply checkRateLimit_bounded.
    - rewrite IH1, Hmax in *. by split. }
  destruct (H (new config)) as [Hmax Hlen]; [simpl; lia|].
  simpl. rewrite Hmax. simpl in *. repeat split; lia.
Qed.

Lemma status_within_limit_witness :
  let status := getStatus (after_checks [0; 10; 20] (new (mkConfig (Some 5) None))) in
  0 ≤ status_maxRequests status ∧
  requestCount status + remainingRequests status = status_maxRequests status.
Proof.
  intros status.
  assert (H : 0 ≤ status_maxRequests status) by (vm_compute; discriminate).
  split; [exact H|].
  destruct (status_within_limit (mkConfig (Some 5) None) [0; 10; 20])
    as (_ & _ & _ & Hsum).
  exact (Hsum H).
Defined.

End ClientRateLimitFacts.

(** ** The rate limiter over any stretch of time *)

Module RateLimitWindows.
Import RateLimit RateLimitFacts RateLimitProps.

(** The middleware, branch by branch. *)
Lemma middleware_outcome ip now (store : gmap string IpData) :
  rateLimitMiddleware ip now store =
  let s1 := cleanupOldEntries now store in
  match s1 !! ip with
  | None => mkOutcome (<[ip := mkIpData 1 now false 0]> s1) None true
  | Some d =>
      if RateLimit.blocked d then
        if now <? blockedUntil d
        then mkOutcome s1
               (Some (TooManyRetryIn (ceil_div_1000 (blockedUntil d - now)))) false
        else mkOutcome (<[ip := mkIpData 1 now false 0]> (delete ip s1)) None true
      else if count d + 1 >? RateLimit.maxRequests
        then mkOutcome (<[ip := mkIpData (count d + 1) (resetTime d) true
                                         (now + blockDuration)]> s1)
               (Some TooManyBlocked) true
        else mkOutcome (<[ip := mkIpData (count d + 1) (resetTime d) false
                                         (blockedUntil d)]> s1)
               None true
  end.
Proof.
  simpl. unfold rateLimitMiddleware, updateRequestCounter.
  destruct (cleanupOldEntries now store !! ip) as [d|] eqn:Hd; simpl.
  - destruct d as [c r [] u]; simpl.
    + destruct (Z.ltb_spec now u); simpl; [done|].
      destruct (Z.geb_spec now u); [|lia]. simpl.
      rewrite lookup_delete_eq. reflexivity.
    + rewrite ?Hd. simpl. destruct (c + 1 >? RateLimit.maxRequests); reflexivity.
  - rewrite ?Hd. reflexivity.
Qed.

(** A request of [ip] itself: whether it is allowed, and the entry after
    it. *)
Lemma own_request ip now (store : gmap string IpData) :
  let o := rateLimitMiddleware ip now store in
  (is_allowed o, store_after o !! ip) =
  match store !! ip with
  | None => (true, Some (mkIpData 1 now false 0))
  | Some d =>
      if now - resetTime d >? windowMs
      then (true, Some (mkIpData 1 now false 0))
      else if RateLimit.blocked d then
        if now <? blockedUntil d then (false, Some d)
        else (true, Some (mkIpData 1 now false 0))
      else if count d + 1 >? RateLimit.maxRequests
        then (false, Some (mkIpData (count d + 1) (resetTime d) true
                                    (now + blockDuration)))
        else (true, Some (mkIpData (count d + 1) (resetTime d) false
                                   (blockedUntil d)))
  end.
Proof.
  cbv zeta. rewrite middleware_outcome. cbv zeta.
  destruct (cleanupOldEntries now store !! ip) as [d'|] eqn:Hc;
    rewrite cleanupOldEntries_lookup in Hc; unfold stale in Hc;
    destruct (store !! ip) as [d|] eqn:Hd.
  - destruct (now - resetTime d >? windowMs) eqn:Hst; [done|]. injection Hc as <-.
    destruct (RateLimit.blocked d).
    + destruct (now <? blockedUntil d); unfold is_allowed; simpl.
      * rewrite cleanupOldEntries_lookup, Hd. unfold stale. by rewrite Hst.
      * by rewrite lookup_insert_eq.
    + destruct (count d + 1 >? RateLimit.maxRequests); unfold is_allowed; simpl;
        by rewrite lookup_insert_eq.
  - done.
  - destruct (now - resetTime d >? windowMs); [|done].
    unfold is_allowed. simpl. by rewrite lookup_insert_eq.
  - unfold is_allowed. simpl. by rewrite lookup_insert_eq.
Qed.

(** A request of another client. *)
Lemma foreign_request ip ip' now (store : gmap string IpData) :
  ip' ≠ ip →
  store_after (rateLimitMiddleware ip' now store) !! ip =
  match store !! ip with
  | Some d => if now - resetTime d >? windowMs then None else Some d
  | None => None
  end.
Proof.
  intros Hne.
  transitivity (cleanupOldEntries now store !! ip);
    [|by rewrite cleanupOldEntries_lookup].
  rewrite middleware_store_cases. simpl.
  destruct (cleanupOldEntries now store !! ip') as [d|].
  - destruct (RateLimit.blocked d).
    + destruct (now <? blockedUntil d); [done|].
      by rewrite lookup_insert_ne, lookup_delete_ne.
    + destruct (count d + 1 >? RateLimit.maxRequests); by rewrite lookup_insert_ne.
  - by rewrite lookup_insert_ne.
Qed.

Lemma filter_nil_Forall (P : Z → Prop) `{!∀ x, Decision (P x)} (l : list Z) :
  Forall (λ x, ¬ P x) l → filter P l = [].
Proof.
  induction 1 as [|x l Hx _ IH]; [done|]. by rewrite filter_cons_False.
Qed.

(** Of the allowed times so far, fewer than [limit] lie within a window
    before [now], when those that may do so are at most [n] and [m]. *)
Lemma few_within_window now (cur prev older : list Z) n m :
  Z.of_nat (length cur) ≤ n → Z.of_nat (length prev) ≤ m →
  Forall (λ x, x + windowMs < now) older →
  Z.of_nat (length (filter (λ x, now - x < windowMs + 1) (cur ++ prev ++ older)))
  ≤ n + m.
Proof.
  intros Hc Hp Ho. rewrite !filter_app, !length_app.
  rewrite (filter_nil_Forall _ older)
    by (eapply Forall_impl; [exact Ho|]; simpl; lia).
  pose proof (length_filter (λ x, now - x < windowMs + 1) cur).
  pose proof (length_filter (λ x, now - x < windowMs + 1) prev).
  simpl. lia.
Qed.

Lemma Forall_le_trans (l : list Z) a b :
  a ≤ b → Forall (λ x, x ≤ a) l → Forall (λ x, x ≤ b) l.
Proof. intros Hab H. eapply Forall_impl; [exact H|]. simpl. lia. Qed.

(** Each allowed request of [ip] has fewer than [2 * maxRequests] allowed
    requests of [ip] within [windowMs] before it. *)
Lemma allowed_of_within_limit ip reqs :
  ∀ from hist (store : gmap string IpData),
  window_history ip from hist store →
  ClientRateLimit.nondecreasing from (snd <$> reqs) →
  ClientRateLimit.each_within_limit (2 * maxRequests) (windowMs + 1) hist →
  ClientRateLimit.each_within_limit (2 * maxRequests) (windowMs + 1)
    (reverse (allowed_times_of ip reqs store) ++ hist).
Proof.
  induction reqs as [|[client now] reqs IH]; intros from hist store Hinv Hnd Hok;
    [done|].
  destruct Hnd as [Hfrom Hnd]. simpl in Hfrom.
  destruct Hinv as (Hle & cur & prev & older & -> & Hc & Hp & Hstate).
  pose proof (Forall_le_trans _ _ _ Hfrom Hle) as Hle'.
  cbn [allowed_times_of].
  destruct (decide (client = ip)) as [->|Hne].
  - (* a request of the client itself *)
    rewrite bool_decide_eq_true_2 by done. cbn [andb].
    pose proof (own_request ip now store) as Hown. cbv zeta in Hown.
    destruct (store !! ip) as [d|] eqn:Hd.
    + destruct Hstate as (Hr & Hlen & Hcur & Hprev & Hold & Hblk).
      destruct (Z.gtb_spec (now - resetTime d) windowMs) as [Hst|Hst].
      * (* a new window *)
        injection Hown as -> Hs. rewrite reverse_cons, <- app_assoc.
        apply (IH now); [|done|].
        -- split; [by constructor|].
           exists [now], cur, (prev ++ older). rewrite Hs.
           split; [done|]. split; [unfold maxRequests; simpl; lia|].
           split; [done|]. simpl.
           split; [lia|]. split; [done|]. split; [repeat constructor; unfold windowMs; lia|].
           split; [eapply Forall_impl; [exact Hcur|]; simpl; lia|].
           split; [|done]. apply Forall_app. split.
           ++ eapply Forall_impl; [exact Hprev|]. simpl. lia.
           ++ eapply Forall_impl; [exact Hold|]. simpl. lia.
        -- split; [|done].
           assert (Hfar : Forall (λ x, x + windowMs < now) (prev ++ older)).
           { apply Forall_app. split.
             - eapply Forall_impl; [exact Hprev|]. simpl. lia.
             - eapply Forall_impl; [exact Hold|]. simpl. lia. }
           pose proof (few_within_window now cur [] (prev ++ older)
                         maxRequests 0 Hc ltac:(simpl; lia) Hfar) as Hfew.
           cbn [app] in Hfew |- *. unfold maxRequests in *. lia.
      * destruct (blocked d) eqn:Hb.
        -- destruct (Z.ltb_spec now (blockedUntil d)) as [Hu|Hu];
             [|specialize (Hblk eq_refl); lia].
           (* denied *)
           injection Hown as -> Hs. apply (IH now); [|done|done].
           split; [done|]. exists cur, prev, older. rewrite Hs, Hb.
           repeat split; (done || lia).
        -- destruct (Z.gtb_spec (count d + 1) maxRequests) as [Hfull|Hroom].
           ++ (* the request that sets the block *)
              injection Hown as -> Hs. apply (IH now); [|done|done].
              split; [done|]. exists cur, prev, older. rewrite Hs. simpl.
              repeat split; try done; unfold blockDuration, windowMs in *; lia.
           ++ (* allowed in the window *)
              injection Hown as -> Hs. rewrite reverse_cons, <- app_assoc.
              apply (IH now); [|done|].
              ** split; [by constructor|].
                 exists (now :: cur), prev, older. rewrite Hs. simpl.
                 split; [done|]. split; [lia|]. split; [done|].
                 split; [lia|]. split; [lia|].
                 split; [constructor; [lia|done]|]. by repeat split.
              ** split; [|done].
                 assert (Hfar : Forall (λ x, x + windowMs < now) older).
                 { eapply Forall_impl; [exact Hold|]. simpl. lia. }
                 pose proof (few_within_window now cur prev older
                               (maxRequests - 1) maxRequests ltac:(lia) Hp Hfar)
                   as Hfew.
                 cbn [app] in Hfew |- *. unfold maxRequests in *. lia.
    + (* the first request, or the first after a purge *)
      destruct Hstate as (-> & Hcur & Hold).
      injection Hown as -> Hs. rewrite reverse_cons, <- app_assoc.
      apply (IH now); [|done|].
      * split; [by constructor|].
        exists [now], cur, older. rewrite Hs. simpl.
        split; [done|]. split; [unfold maxRequests; lia|]. split; [done|].
        split; [lia|]. split; [done|].
        split; [repeat constructor; unfold windowMs; lia|].
        split; [eapply Forall_impl; [exact Hcur|]; simpl; lia|].
        split; [|done]. eapply Forall_impl; [exact Hold|]. simpl. lia.
      * split; [|done].
        assert (Hfar : Forall (λ x, x + windowMs < now) older).
        { eapply Forall_impl; [exact Hold|]. simpl. lia. }
        pose proof (few_within_window now cur [] older
                      maxRequests 0 Hc ltac:(simpl; lia) Hfar) as Hfew.
        cbn [app] in Hfew |- *. unfold maxRequests in *. lia.
  - (* a request of another client *)
    rewrite bool_decide_eq_false_2 by done. cbn [andb].
    pose proof (foreign_request ip client now store Hne) as Hs.
    apply (IH now); [|done|done].
    split; [done|].
    destruct (store !! ip) as [d|] eqn:Hd.
    + destruct Hstate as (Hr & Hlen & Hcur & Hprev & Hold & Hblk).
      destruct (Z.gtb_spec (now - resetTime d) windowMs) as [Hst|Hst].
      * exists cur, [], (prev ++ older). rewrite Hs.
        split; [done|]. split; [done|]. split; [unfold maxRequests; simpl; lia|].
        split; [done|].
        split; [eapply Forall_impl; [exact Hcur|]; simpl; lia|].
        apply Forall_app. split.
        -- eapply Forall_impl; [exact Hprev|]. simpl. lia.
        -- eapply Forall_impl; [exact Hold|]. simpl. lia.
      * exists cur, prev, older. rewrite Hs.
        repeat split; (done || lia).
    + destruct Hstate as (-> & Hcur & Hold).
      exists cur, [], older. rewrite Hs.
      split; [done|]. split; [done|]. split; [done|]. split; [done|].
      split; (eapply Forall_impl; [eassumption|]; simpl; lia).
Qed.

(** X23.  With a clock that does not go back, and whatever the other
    clients do, a client that starts without an entry has at most
    [2 * maxRequests] of its requests allowed in any stretch of [windowMs]
    milliseconds: the windows are fixed, and a stretch can span the end of
    one and the start of the next. *)
Theorem at_most_twice_the_limit ip from reqs t (store : gmap string IpData) :
  store !! ip = None →
  ClientRateLimit.nondecreasing from (snd <$> reqs) →
  Z.of_nat (length (filter (λ a, t - windowMs ≤ a ∧ a ≤ t)
                      (allowed_times_of ip reqs store)))
  ≤ 2 * maxRequests.
Proof.
  intros Habs Hnd.
  assert (Hinv : window_history ip from [] store).
  { split; [done|]. exists [], [], []. rewrite Habs.
    repeat split; (done || (unfold maxRequests; simpl; lia)). }
  pose proof (allowed_of_within_limit ip reqs from [] store Hinv Hnd I) as Hok.
  rewrite app_nil_r in Hok.
  apply (ClientRateLimitFacts.window_count _ _ _ t) in Hok.
  rewrite filter_reverse, length_reverse in Hok.
  rewrite (list_filter_iff (λ a, t - windowMs ≤ a ∧ a ≤ t)
             (λ a, t - (windowMs + 1) < a ∧ a ≤ t)) by (intros a; lia).
  unfold maxRequests in *. lia.
Qed.

Lemma at_most_twice_the_limit_witness :
  (∅ : gmap string IpData) !! burst_client = None ∧
  ClientRateLimit.nondecreasing 0
    (snd <$> ((λ t, (burst_client, t)) <$>
                (0 :: replicate 10 60000 ++ replicate 11 60001))) ∧
  Z.of_nat (length (filter (λ a, 60001 - windowMs ≤ a ∧ a ≤ 60001)
     (allowed_times_of burst_client
        ((λ t, (burst_client, t)) <$>
           (0 :: replicate 10 60000 ++ replicate 11 60001)) ∅)))
  ≤ 2 * maxRequests.
Proof.
  assert (H0 : (∅ : gmap string IpData) !! burst_client = None) by reflexivity.
  assert (H1 : ClientRateLimit.nondecreasing 0
                 (snd <$> ((λ t, (burst_client, t)) <$>
                      (0 :: replicate 10 60000 ++ replicate 11 60001)))).
  { simpl. lia. }
  split; [exact H0|]. split; [exact H1|].
  exact (at_most_twice_the_limit burst_client 0 _ 60001 ∅ H0 H1).
Defined.

End RateLimitWindows.
